(** * dbhelper.js: a read-through IndexedDB cache with an offline review queue

    Shallow embedding of [src/js/dbhelper.js] (class [DBHelper]) and the
    properties of its read, write and query operations.

    Modelling conventions.
    - JavaScript values are the primitives a JSON document can carry
      (no NaN, no negative zero); numbers are the integers (of magnitude
      below 2^53).  A record (restaurant, review) is a plain object: a
      finite map from property names to values, a missing property reading
      as [undefined].
    - An IndexedDB object store with in-line keys is a finite map from keys
      to records; [getAll] lists the records in ascending key order.  When
      there is a service worker, [idb.open] succeeds.
    - A promise chain is a computation over the state of the browser
      ([World]) that completes normally or throws; [.then] is sequencing,
      [.catch] is a handler.  The operations of [DBHelper] run one at a
      time, each to completion: a promise whose result the code drops runs
      where it is started and its rejection is lost, and the caller's
      callback does not start another operation.
    - The remote API is a total function from requests to outcomes, typed by
      its contract: a collection endpoint answers with a JSON array of
      records, the create endpoint with one record. *)

From Stdlib Require Import Ascii String ZArith.
From Stdlib Require OrderedTypeEx.
From stdpp Require Import base strings list gmap sorting pretty.

Local Open Scope string_scope.
Local Open Scope list_scope.
Local Open Scope Z_scope.

(** ** JavaScript values *)

Inductive JSValue : Type :=
  | JSUndefined
  | JSNull
  | JSBool (b : bool)
  | JSNumber (n : Z)
  | JSString (s : string).

#[global] Instance JSValue_eq_dec : EqDecision JSValue.
Proof. solve_decision. Defined.

(** A plain object: own properties only. *)
Abbreviation JSObject := (gmap string JSValue).

(** Property read [o.p] / [o[p]]. *)
Definition prop (o : JSObject) (p : string) : JSValue :=
  default JSUndefined (o !! p).

(** Property write [o[p] = v]. *)
Definition set_prop (o : JSObject) (p : string) (v : JSValue) : JSObject :=
  <[p := v]> o.

(** Exception objects raised by the runtime and by IndexedDB. *)
Inductive JSError : Type :=
  | TypeError (msg : string)
  | ReferenceError (msg : string)
  | SyntaxError (msg : string)
  | DataError (msg : string).

#[global] Instance JSError_eq_dec : EqDecision JSError.
Proof. solve_decision. Defined.

(** *** Conversions used by [==] and by template literals *)

Definition is_whitespace (c : ascii) : bool :=
  bool_decide (c = " "%char) || bool_decide (c = "009"%char)
  || bool_decide (c = "010"%char) || bool_decide (c = "011"%char)
  || bool_decide (c = "012"%char) || bool_decide (c = "013"%char).

Definition digit_value (c : ascii) : option Z :=
  let n := Z.of_nat (nat_of_ascii c) in
  if bool_decide (48 ≤ n ≤ 57) then Some (n - 48) else None.

Fixpoint digits_value (acc : Z) (cs : list ascii) : option Z :=
  match cs with
  | [] => Some acc
  | c :: cs' =>
      match digit_value c with
      | Some d => digits_value (10 * acc + d) cs'
      | None => None
      end
  end.

Fixpoint drop_whitespace (cs : list ascii) : list ascii :=
  match cs with
  | c :: cs' => if is_whitespace c then drop_whitespace cs' else cs
  | [] => []
  end.

Definition trim (cs : list ascii) : list ascii :=
  reverse (drop_whitespace (reverse (drop_whitespace cs))).

(** [StringToNumber] on the integer literals: surrounding white space is
    dropped, the empty string is [0], an optional sign is followed by
    decimal digits.  [None] is NaN, the answer for a string that is no
    numeric literal.  Numeric literals of other shapes (a fraction, an
    exponent, a radix prefix, [Infinity]) are outside the model, which
    answers NaN for them too. *)
Definition StringToNumber (s : string) : option Z :=
  match trim (list_ascii_of_string s) with
  | [] => Some 0
  | "-"%char :: ((_ :: _) as ds) => Z.opp <$> digits_value 0 ds
  | "+"%char :: ((_ :: _) as ds) => digits_value 0 ds
  | "-"%char :: [] | "+"%char :: [] => None
  | ds => digits_value 0 ds
  end.

Definition ToNumber (v : JSValue) : option Z :=
  match v with
  | JSUndefined => None
  | JSNull => Some 0
  | JSBool b => Some (if b then 1 else 0)
  | JSNumber n => Some n
  | JSString s => StringToNumber s
  end.

(** Equality of two numbers, NaN being equal to nothing. *)
Definition number_equal (a b : option Z) : bool :=
  match a, b with
  | Some x, Some y => bool_decide (x = y)
  | _, _ => false
  end.

Definition ToString (v : JSValue) : string :=
  match v with
  | JSUndefined => "undefined"
  | JSNull => "null"
  | JSBool b => if b then "true" else "false"
  | JSNumber n => pretty n
  | JSString s => s
  end.

(** [x === y]. *)
Definition strict_eq (x y : JSValue) : bool := bool_decide (x = y).

(** [x == y] (IsLooselyEqual on primitives). *)
Definition loose_eq (x y : JSValue) : bool :=
  match x, y with
  | JSUndefined, (JSUndefined | JSNull) => true
  | JSNull, (JSUndefined | JSNull) => true
  | JSUndefined, _ | JSNull, _ => false
  | _, JSUndefined | _, JSNull => false
  | JSNumber a, JSNumber b => bool_decide (a = b)
  | JSString a, JSString b => bool_decide (a = b)
  | JSBool a, JSBool b => bool_decide (a = b)
  | _, _ => number_equal (ToNumber x) (ToNumber y)
  end.

(** [x != y]. *)
Definition loose_neq (x y : JSValue) : bool := negb (loose_eq x y).

(** ** The IndexedDB object stores *)

(** Valid keys: numbers and strings (the other key types are not JSON). *)
Inductive IDBKey : Type :=
  | KeyNumber (n : Z)
  | KeyString (s : string).

#[global] Instance IDBKey_eq_dec : EqDecision IDBKey.
Proof. solve_decision. Defined.

#[global] Instance IDBKey_countable : Countable IDBKey.
Proof.
  refine (inj_countable'
    (fun k => match k with KeyNumber n => inl n | KeyString s => inr s end)
    (fun x => match x with inl n => KeyNumber n | inr s => KeyString s end) _).
  by intros [].
Defined.

Abbreviation ObjectStore := (gmap IDBKey JSObject).

(** Conversion of a value to a key; [None] when the value is not a valid
    key. *)
Definition to_key (v : JSValue) : option IDBKey :=
  match v with
  | JSNumber n => Some (KeyNumber n)
  | JSString s => Some (KeyString s)
  | _ => None
  end.

(** Key order: every number is below every string. *)
Definition key_leb (a b : IDBKey) : bool :=
  match a, b with
  | KeyNumber x, KeyNumber y => bool_decide (x ≤ y)
  | KeyNumber _, KeyString _ => true
  | KeyString _, KeyNumber _ => false
  | KeyString s, KeyString t => String.leb s t
  end.

Definition entry_le (a b : IDBKey * JSObject) : Prop := key_leb a.1 b.1.

#[global] Instance entry_le_dec a b : Decision (entry_le a b).
Proof. unfold entry_le. apply _. Defined.

(** [store.put(value)] on a store with in-line keys at [keyPath]: the key
    is read from the value; [None] is the DataError of a missing or invalid
    key. *)
Definition store_put (keyPath : string) (value : JSObject) (s : ObjectStore)
  : option ObjectStore :=
  match to_key (prop value keyPath) with
  | Some k => Some (<[k := value]> s)
  | None => None
  end.

(** [store.getAll()]: the records in ascending key order. *)
Definition store_getAll (s : ObjectStore) : list JSObject :=
  (merge_sort entry_le (map_to_list s)).*2.

(** An index on [indexPath]: the records whose value at [indexPath] is a
    valid key, ordered by index key, then by primary key. *)
Definition index_leb (a b : IDBKey * (IDBKey * JSObject)) : bool :=
  if decide (a.1 = b.1) then key_leb a.2.1 b.2.1 else key_leb a.1 b.1.

Definition index_le (a b : IDBKey * (IDBKey * JSObject)) : Prop :=
  index_leb a b.

#[global] Instance index_le_dec a b : Decision (index_le a b).
Proof. unfold index_le. apply _. Defined.

Definition index_entries (indexPath : string) (s : ObjectStore)
  : list (IDBKey * (IDBKey * JSObject)) :=
  merge_sort index_le
    (omap (fun e : IDBKey * JSObject =>
             match to_key (prop e.2 indexPath) with
             | Some ik => Some (ik, e)
             | None => None
             end)
          (map_to_list s)).

(** [index.getAll(query)]: no query ([undefined], [null]) lists the whole
    index, a valid key lists the records with that index key, any other
    value is a DataError. *)
Definition index_getAll (indexPath : string) (query : JSValue) (s : ObjectStore)
  : JSError + list JSObject :=
  match query with
  | JSUndefined | JSNull => inr ((index_entries indexPath s).*2.*2)
  | _ =>
      match to_key query with
      | Some k =>
          inr ((filter (fun e => e.1 = k) (index_entries indexPath s)).*2.*2)
      | None => inl (DataError "The parameter is not a valid key.")
      end
  end.

(** The database [restaurantDatabase], version 1.  The upgrade callback of
    [openIDBConnection] creates the three stores, empty, the first time the
    database is opened: [restaurantObject] and [reviewsObject] keyed by
    [id], [reviewsOfflineObject] keyed by [updatedAt]. *)
Record Database : Type := mkDatabase {
  restaurantObject : ObjectStore;
  reviewsObject : ObjectStore;
  reviewsOfflineObject : ObjectStore
}.

Definition empty_database : Database := mkDatabase ∅ ∅ ∅.

(** ** The remote API and the browser *)

(** What [fetch] does with a request: it rejects (no connection), or it
    resolves with a response whose status is [ok] or not and whose
    [json()] rejects or resolves. *)
Inductive FetchOutcome (A : Type) : Type :=
  | NetworkFailure (e : JSError)
  | Responds (ok : bool) (body : JSError + A).
Arguments NetworkFailure {A} e.
Arguments Responds {A} ok body.

Record Remote : Type := mkRemote {
  remote_get : string → FetchOutcome (list JSObject);
  remote_post : string → JSObject → FetchOutcome JSObject
}.

Record Request : Type := mkRequest {
  req_method : string;
  req_url : string;
  req_body : option JSObject
}.

(** The two channels of a completion callback. *)
Inductive CbError : Type :=
  | ErrorObject (e : JSError)
  | ErrorMessage (s : string).

Inductive CbData : Type :=
  | DataRecords (l : list JSObject)
  | DataRecord (o : JSObject)
  | DataValues (l : list JSValue).

Record World : Type := mkWorld {
  serviceWorker : bool;              (* navigator.serviceWorker is there *)
  globals : gmap string JSValue;     (* bindings of the global object *)
  remote : Remote;
  clock : nat → Z;                   (* successive readings of the clock *)
  ticks : nat;
  database : Database;
  requests : list Request;           (* calls of fetch, oldest first *)
  callbacks : list (option CbError * option CbData)
                                     (* calls of the caller's callback *)
}.

Definition set_database (d : Database) (w : World) : World :=
  mkWorld (serviceWorker w) (globals w) (remote w) (clock w) (ticks w)
          d (requests w) (callbacks w).

Definition log_request (r : Request) (w : World) : World :=
  mkWorld (serviceWorker w) (globals w) (remote w) (clock w) (ticks w)
          (database w) (requests w ++ [r]) (callbacks w).

Definition log_callback (c : option CbError * option CbData) (w : World)
  : World :=
  mkWorld (serviceWorker w) (globals w) (remote w) (clock w) (ticks w)
          (database w) (requests w) (callbacks w ++ [c]).

Definition advance_clock (w : World) : World :=
  mkWorld (serviceWorker w) (globals w) (remote w) (clock w) (S (ticks w))
          (database w) (requests w) (callbacks w).

(** ** Promise chains *)

Inductive Completion (A : Type) : Type :=
  | Normal (a : A)
  | Throw (e : JSError).
Arguments Normal {A} a.
Arguments Throw {A} e.

Definition M (A : Type) : Type := World → Completion A * World.

Definition resolve {A} (a : A) : M A := fun w => (Normal a, w).

Definition throw {A} (e : JSError) : M A := fun w => (Throw e, w).

(** [p.then(f)] *)
Definition then_ {A B} (p : M A) (f : A → M B) : M B := fun w =>
  match p w with
  | (Normal a, w') => f a w'
  | (Throw e, w') => (Throw e, w')
  end.

(** [p.catch(h)] *)
Definition catch_ {A} (p : M A) (h : JSError → M A) : M A := fun w =>
  match p w with
  | (Normal a, w') => (Normal a, w')
  | (Throw e, w') => h e w'
  end.

(** A promise nobody waits for: its effects happen, its outcome is lost. *)
Definition detached {A} (p : M A) : M unit := fun w => (Normal tt, (p w).2).

Notation "'let!' x ':=' p 'in' k" := (then_ p (fun x => k))
  (at level 10, x pattern, p at level 100, k at level 200).
Notation "p ';;' k" := (then_ p (fun _ => k))
  (at level 100, k at level 200, right associativity).

(** [array.forEach(f)] *)
Fixpoint forEach {A} (f : A → M unit) (l : list A) : M unit :=
  match l with
  | [] => resolve tt
  | x :: l' => f x ;; forEach f l'
  end.

(** [sync] runs now; [pending], a promise started before it and not
    awaited, settles afterwards whatever [sync] does. *)
Definition with_pending {A B} (sync : M A) (pending : M B) : M A := fun w =>
  let (r, w') := sync w in (r, (pending w').2).

(** [x.length] where [x] is an array or [undefined]. *)
Definition length_of {A} (x : option (list A)) : M nat :=
  match x with
  | Some l => resolve (length l)
  | None =>
      throw (TypeError "Cannot read properties of undefined (reading 'length')")
  end.

(** An array received where [null] could have been. *)
Definition array_of {A} (x : option (list A)) : M (list A) :=
  match x with
  | Some l => resolve l
  | None => throw (TypeError "Cannot read properties of null")
  end.

(** [if (error)]: [null] is falsy, an exception object is truthy, a string
    is truthy unless empty. *)
Definition truthy (error : option CbError) : bool :=
  match error with
  | None => false
  | Some (ErrorObject _) => true
  | Some (ErrorMessage s) => negb (bool_decide (s = ""))
  end.

(** [if (v)] on a value: [undefined], [null], [false], [0] and the empty
    string are falsy. *)
Definition ToBoolean (v : JSValue) : bool :=
  match v with
  | JSUndefined | JSNull => false
  | JSBool b => b
  | JSNumber n => negb (bool_decide (n = 0))
  | JSString s => negb (bool_decide (s = ""))
  end.

(** [array[i]] for an array of records.  The code reads it only inside
    [array.map], at indices below the length; past the end this reads as an
    object without properties. *)
Definition element (array : list JSObject) (i : nat) : JSObject :=
  default ∅ (array !! i).

(** [array.indexOf(v)]: the first index holding a value [===] to [v], or
    [-1]. *)
Fixpoint indexOf_from (i : Z) (array : list JSValue) (v : JSValue) : Z :=
  match array with
  | [] => -1
  | x :: array' => if strict_eq x v then i else indexOf_from (i + 1) array' v
  end.

Definition indexOf (array : list JSValue) (v : JSValue) : Z :=
  indexOf_from 0 array v.

(** [array.filter((v, i) => f(v, i))] *)
Fixpoint filter_indexed_from {A} (f : A → nat → bool) (i : nat) (array : list A)
  : list A :=
  match array with
  | [] => []
  | x :: array' =>
      if f x i then x :: filter_indexed_from f (S i) array'
      else filter_indexed_from f (S i) array'
  end.

Definition filter_indexed {A} (f : A → nat → bool) (array : list A) : list A :=
  filter_indexed_from f 0 array.

(** ** dbhelper.js *)

Definition IDB_DATABASE : string := "restaurantDatabase".
Definition IDB_OBJECT : string := "restaurantObject".
Definition IDB_REVIEWS_OBJECT : string := "reviewsObject".
Definition IDB_REVIEWS_OBJECT_OFFLINE : string := "reviewsOfflineObject".
Definition PORT : JSValue := JSNumber 1337.

(** The constants the module declares.  Identifiers are case sensitive. *)
Definition module_scope : gmap string JSValue :=
  list_to_map
    [ ("IDB_DATABASE", JSString IDB_DATABASE);
      ("IDB_OBJECT", JSString IDB_OBJECT);
      ("IDB_REVIEWS_OBJECT", JSString IDB_REVIEWS_OBJECT);
      ("IDB_REVIEWS_OBJECT_OFFLINE", JSString IDB_REVIEWS_OBJECT_OFFLINE);
      ("PORT", PORT) ].

(** Reading an identifier: the module's scope, then the global object; an
    identifier bound in neither is a ReferenceError. *)
Definition identifier (x : string) : M JSValue := fun w =>
  match module_scope !! x with
  | Some v => (Normal v, w)
  | None =>
      match globals w !! x with
      | Some v => (Normal v, w)
      | None => (Throw (ReferenceError (x +:+ " is not defined")), w)
      end
  end.

(** [fetch(url)] and [fetch(url, {method: "POST", body})] *)
Definition fetch_get (url : string) : M (bool * (JSError + list JSObject)) :=
  fun w =>
    let w' := log_request (mkRequest "GET" url None) w in
    match remote_get (remote w) url with
    | NetworkFailure e => (Throw e, w')
    | Responds ok body => (Normal (ok, body), w')
    end.

Definition fetch_post (url : string) (body : JSObject)
  : M (bool * (JSError + JSObject)) :=
  fun w =>
    let w' := log_request (mkRequest "POST" url (Some body)) w in
    match remote_post (remote w) url body with
    | NetworkFailure e => (Throw e, w')
    | Responds ok answer => (Normal (ok, answer), w')
    end.

(** [res.json()] *)
Definition json {A} (res : bool * (JSError + A)) : M A :=
  match res.2 with
  | inr data => resolve data
  | inl e => throw e
  end.

(** [new Date().getTime()] *)
Definition getTime : M Z := fun w =>
  (Normal (clock w (ticks w)), advance_clock w).

(** The stores of the database by name, and their key paths. *)
Definition objectStore (name : string) (d : Database) : option ObjectStore :=
  if decide (name = IDB_OBJECT) then Some (restaurantObject d)
  else if decide (name = IDB_REVIEWS_OBJECT) then Some (reviewsObject d)
  else if decide (name = IDB_REVIEWS_OBJECT_OFFLINE)
       then Some (reviewsOfflineObject d)
  else None.

Definition keyPath (name : string) : string :=
  if decide (name = IDB_REVIEWS_OBJECT_OFFLINE) then "updatedAt" else "id".

Definition set_objectStore (name : string) (s : ObjectStore) (d : Database)
  : Database :=
  if decide (name = IDB_OBJECT)
  then mkDatabase s (reviewsObject d) (reviewsOfflineObject d)
  else if decide (name = IDB_REVIEWS_OBJECT)
  then mkDatabase (restaurantObject d) s (reviewsOfflineObject d)
  else if decide (name = IDB_REVIEWS_OBJECT_OFFLINE)
  then mkDatabase (restaurantObject d) (reviewsObject d) s
  else d.

(** The DataError of a [put] whose value has no valid key at the key path. *)
Definition no_key : JSError :=
  DataError "Evaluating the object store's key path did not yield a value.".

(** [db.transaction(name, "readwrite").objectStore(name).put(value)] *)
Definition put (name : string) (value : JSObject) : M unit := fun w =>
  match objectStore name (database w) with
  | Some s =>
      match store_put (keyPath name) value s with
      | Some s' =>
          (Normal tt, set_database (set_objectStore name s' (database w)) w)
      | None =>
          (Throw no_key, w)
      end
  | None => (Throw (DataError "No such object store."), w)
  end.

Inductive IDBHandle : Type := Handle.

(** The argument of [saveToIDB]: one record, or an array of records. *)
Inductive SaveData : Type :=
  | Single (o : JSObject)
  | Array (l : list JSObject).

Module DBHelper.

Definition DATABASE_URL : M string :=
  let! port := identifier "PORT" in
  resolve ("http://localhost:" +:+ ToString port +:+ "/restaurants").

Definition DATABASE_URL_REVIEWS : M string :=
  let! port := identifier "PORT" in
  resolve ("http://localhost:" +:+ ToString port
           +:+ "/reviews?restaurant_id=").

Definition openIDBConnection : M (option IDBHandle) := fun w =>
  if negb (serviceWorker w) then (Normal None, w)
  else (Normal (Some Handle), w).

Definition saveToIDB (data : SaveData) (storeToSaveInto : string) : M unit :=
  let! db := openIDBConnection in
  match db with
  | None => resolve tt
  | Some _ =>
      if decide (storeToSaveInto = IDB_REVIEWS_OBJECT) then
        match data with
        | Single o => put IDB_REVIEWS_OBJECT o
        | Array _ => throw no_key
        end
      else if decide (storeToSaveInto = IDB_REVIEWS_OBJECT_OFFLINE) then
        match data with
        | Single o => put IDB_REVIEWS_OBJECT_OFFLINE o
        | Array _ => throw no_key
        end
      else
        match data with
        | Array l => forEach (fun restaurant => put IDB_OBJECT restaurant) l
        | Single _ => throw (TypeError "data.forEach is not a function")
        end
  end.

Definition Callback (D : Type) : Type := option CbError → option D → M unit.

Definition fetchReviewsFromAPI (id : JSValue) (cb : Callback (list JSObject))
  : M (option (list JSObject)) :=
  let! base := DATABASE_URL_REVIEWS in
  let url := base +:+ ToString id in
  catch_
    (let! res := fetch_get url in
     let! data := json res in
     forEach
       (fun review => detached (saveToIDB (Single review) IDB_REVIEWS_OBJECT))
       data;;
     cb None (Some data);;
     resolve (Some data))
    (fun e => cb (Some (ErrorObject e)) None;; resolve None).

Definition fetchCachedReviews (id : JSValue) : M (option (list JSObject)) :=
  let! db := openIDBConnection in
  match db with
  | None => resolve None
  | Some _ => fun w =>
      match index_getAll "restaurant_id" id (reviewsObject (database w)) with
      | inr reviews => (Normal (Some reviews), w)
      | inl e => (Throw e, w)
      end
  end.

Definition fetchReviews (id : JSValue) (cb : Callback (list JSObject))
  : M (option (list JSObject)) :=
  catch_
    (let! reviews := fetchCachedReviews id in
     let! len := length_of reviews in
     if negb (len =? 0)%nat then
       cb None reviews;;
       resolve reviews
     else
       fetchReviewsFromAPI id cb)
    (fun error => cb (Some (ErrorObject error)) None;; resolve None).

Definition addReview (data : JSObject) (cb : option CbError → M unit)
  : M unit :=
  let! port := identifier "port" in
  let url := "http://localhost:" +:+ ToString port +:+ "/reviews" in
  catch_
    (let! res := fetch_post url data in
     with_pending
       (cb None)
       (let! data := json res in
        detached (saveToIDB (Single data) IDB_REVIEWS_OBJECT)))
    (fun err =>
       let! updatedAt := getTime in
       let data := set_prop data "updatedAt" (JSNumber updatedAt) in
       let! createdAt := getTime in
       let data := set_prop data "createdAt" (JSNumber createdAt) in
       detached (saveToIDB (Single data) IDB_REVIEWS_OBJECT_OFFLINE)).

Definition fetchRestaurantsFromAPI : M (list JSObject) :=
  let! url := DATABASE_URL in
  let! res := fetch_get url in
  let! restaurants := json res in
  detached (saveToIDB (Array restaurants) IDB_OBJECT);;
  resolve restaurants.

Definition fetchCachedRestaurants : M (option (list JSObject)) :=
  let! db := openIDBConnection in
  match db with
  | None => resolve None
  | Some _ => fun w =>
      (Normal (Some (store_getAll (restaurantObject (database w)))), w)
  end.

Definition fetchRestaurants (cb : Callback (list JSObject)) : M unit :=
  catch_
    (let! restaurants :=
       (let! restaurants := fetchCachedRestaurants in
        let! len := length_of restaurants in
        if negb (len =? 0)%nat then array_of restaurants
        else fetchRestaurantsFromAPI) in
     cb None (Some restaurants))
    (fun error => cb (Some (ErrorObject error)) None).

Definition fetchRestaurantById (id : JSValue) (callback : Callback JSObject)
  : M unit :=
  fetchRestaurants (fun error restaurants =>
    if truthy error then callback error None
    else
      let! restaurants := array_of restaurants in
      match List.find (fun r => loose_eq (prop r "id") id) restaurants with
      | Some restaurant => callback None (Some restaurant)
      | None =>
          callback (Some (ErrorMessage "Restaurant does not exist")) None
      end).

Definition fetchRestaurantByCuisine (cuisine : JSValue)
    (callback : Callback (list JSObject)) : M unit :=
  fetchRestaurants (fun error restaurants =>
    if truthy error then callback error None
    else
      let! restaurants := array_of restaurants in
      let results :=
        List.filter (fun r => loose_eq (prop r "cuisine_type") cuisine)
                    restaurants in
      callback None (Some results)).

Definition fetchRestaurantByNeighborhood (neighborhood : JSValue)
    (callback : Callback (list JSObject)) : M unit :=
  fetchRestaurants (fun error restaurants =>
    if truthy error then callback error None
    else
      let! restaurants := array_of restaurants in
      let results :=
        List.filter (fun r => loose_eq (prop r "neighborhood") neighborhood)
                    restaurants in
      callback None (Some results)).

Definition fetchRestaurantByCuisineAndNeighborhood
    (cuisine neighborhood : JSValue) (callback : Callback (list JSObject))
  : M unit :=
  fetchRestaurants (fun error restaurants =>
    if truthy error then callback error None
    else
      let! results := array_of restaurants in
      let results :=
        if loose_neq cuisine (JSString "all")
        then List.filter (fun r => loose_eq (prop r "cuisine_type") cuisine)
                         results
        else results in
      let results :=
        if loose_neq neighborhood (JSString "all")
        then List.filter
               (fun r => loose_eq (prop r "neighborhood") neighborhood)
               results
        else results in
      callback None (Some results)).

Definition fetchNeighborhoods (callback : Callback (list JSValue)) : M unit :=
  fetchRestaurants (fun error restaurants =>
    if truthy error then callback error None
    else
      let! restaurants := array_of restaurants in
      let neighborhoods :=
        imap (fun i v => prop (element restaurants i) "neighborhood")
             restaurants in
      let uniqueNeighborhoods :=
        filter_indexed
          (fun v i => loose_eq (JSNumber (indexOf neighborhoods v))
                               (JSNumber (Z.of_nat i)))
          neighborhoods in
      callback None (Some uniqueNeighborhoods)).

Definition fetchCuisines (callback : Callback (list JSValue)) : M unit :=
  fetchRestaurants (fun error restaurants =>
    if truthy error then callback error None
    else
      let! restaurants := array_of restaurants in
      let cuisines :=
        imap (fun i v => prop (element restaurants i) "cuisine_type")
             restaurants in
      let uniqueCuisines :=
        filter_indexed
          (fun v i => loose_eq (JSNumber (indexOf cuisines v))
                               (JSNumber (Z.of_nat i)))
          cuisines in
      callback None (Some uniqueCuisines)).

Definition urlForRestaurant (restaurant : JSObject) : string :=
  "./restaurant.html?id=" +:+ ToString (prop restaurant "id").

Definition imageUrlForRestaurant (restaurant : JSObject) : string :=
  if ToBoolean (prop restaurant "photograph")
  then "/img/" +:+ ToString (prop restaurant "photograph") +:+ ".webp"
  else "https://placehold.it/400x200".

End DBHelper.

(** The caller's callback: it takes note of its two arguments, and does
    not throw. *)
Definition record {D} (inj : D → CbData) : DBHelper.Callback D :=
  fun error data w => (Normal tt, log_callback (error, inj <$> data) w).

(** The callback of [addReview], called with one argument. *)
Definition record1 : option CbError → M unit :=
  fun error w => (Normal tt, log_callback (error, None) w).

(** * Derived definitions used by the statements *)

(** The store that [records.forEach(r => store.put(r))] leaves: the puts
    happen in order and stop at the first DataError. *)
Fixpoint putMany (path : string) (records : list JSObject) (s : ObjectStore)
  : ObjectStore :=
  match records with
  | [] => s
  | r :: records' =>
      match store_put path r s with
      | Some s' => putMany path records' s'
      | None => s
      end
  end.

(** The records of an array up to the first one without a valid key, with
    their keys. *)
Fixpoint keyed (path : string) (records : list JSObject)
  : list (IDBKey * JSObject) :=
  match records with
  | [] => []
  | r :: records' =>
      match to_key (prop r path) with
      | Some k => (k, r) :: keyed path records'
      | None => []
      end
  end.

(** The store [name] of the database of [w] replaced by [s]. *)
Definition set_store (name : string) (s : ObjectStore) (w : World) : World :=
  set_database (set_objectStore name s (database w)) w.

(** The promise that [fetchRestaurants] hands to its callback: the cached
    records, or the remote ones. *)
Definition cached_or_remote : M (list JSObject) :=
  let! restaurants := DBHelper.fetchCachedRestaurants in
  let! len := length_of restaurants in
  if negb (len =? 0)%nat then array_of restaurants
  else DBHelper.fetchRestaurantsFromAPI.

Definition restaurants_url : string := "http://localhost:1337/restaurants".

Definition reviews_url (id : JSValue) : string :=
  "http://localhost:1337/reviews?restaurant_id=" +:+ ToString id.

Definition undefined_length : JSError :=
  TypeError "Cannot read properties of undefined (reading 'length')".

(** The store that a run of single [put]s leaves, each in a transaction of
    its own: a record without a valid key is skipped. *)
Fixpoint putEach (path : string) (records : list JSObject) (s : ObjectStore)
  : ObjectStore :=
  match records with
  | [] => s
  | r :: records' => putEach path records' (default s (store_put path r s))
  end.

(** The saves that [fetchReviewsFromAPI] starts, one per review. *)
Definition save_reviews (data : list JSObject) : M unit :=
  forEach
    (fun review =>
       detached (DBHelper.saveToIDB (Single review) IDB_REVIEWS_OBJECT))
    data.

(** ** Sample data *)

Definition restaurant (id : JSValue) (name neighborhood cuisine : string)
  : JSObject :=
  list_to_map [ ("id", id); ("name", JSString name);
                ("neighborhood", JSString neighborhood);
                ("cuisine_type", JSString cuisine) ].

Definition review (id restaurant_id : JSValue) (name comments : string)
  : JSObject :=
  list_to_map [ ("id", id); ("restaurant_id", restaurant_id);
                ("name", JSString name); ("comments", JSString comments) ].

Definition mission : JSObject :=
  restaurant (JSNumber 1) "Mission Chinese Food" "Manhattan" "Asian".
Definition emily : JSObject :=
  restaurant (JSNumber 2) "Emily" "Brooklyn" "Pizza".
Definition kang_ho : JSObject :=
  restaurant (JSNumber 3) "Kang Ho Dong Baekjeong" "Manhattan" "Asian".

Definition steve : JSObject :=
  review (JSNumber 1) (JSNumber 1) "Steve" "Mission Chinese Food has grown up.".
Definition morgan : JSObject :=
  review (JSNumber 2) (JSNumber 1) "Morgan" "This place is a blast.".

(** A review as the form submits it: no [id] yet. *)
Definition draft : JSObject :=
  list_to_map [ ("restaurant_id", JSNumber 1); ("name", JSString "Jason");
                ("rating", JSNumber 4); ("comments", JSString "Great.") ].

Definition failed_to_fetch : JSError := TypeError "Failed to fetch".

(** A server that answers every request: the restaurants at the restaurants
    endpoint, the reviews at any other one, and a created review with the
    [id] it assigns. *)
Definition online (restaurants reviews : list JSObject) : Remote :=
  mkRemote
    (fun url => if decide (url = restaurants_url)
                then Responds true (inr restaurants)
                else Responds true (inr reviews))
    (fun url body => Responds true (inr (set_prop body "id" (JSNumber 31)))).

(** No connection. *)
Definition unreachable : Remote :=
  mkRemote (fun url => NetworkFailure failed_to_fetch)
           (fun url body => NetworkFailure failed_to_fetch).

(** A browser on its first visit: empty stores, nothing fetched, no
    callback called; the global object binds none of the identifiers the
    module reads. *)
Definition browser (service_worker : bool) (api : Remote) : World :=
  mkWorld service_worker ∅ api (fun n => 1541116800000 + Z.of_nat n) 0
          empty_database [] [].

(** ** The read operations *)

Inductive ReadOperation : Type :=
  | FetchRestaurants
  | FetchReviews (id : JSValue)
  | FetchRestaurantById (id : JSValue)
  | FetchRestaurantByCuisine (cuisine : JSValue)
  | FetchRestaurantByNeighborhood (neighborhood : JSValue)
  | FetchRestaurantByCuisineAndNeighborhood (cuisine neighborhood : JSValue)
  | FetchNeighborhoods
  | FetchCuisines.

(** The world after a read operation called with a callback that takes
    note of its arguments. *)
Definition read (op : ReadOperation) (w : World) : World :=
  match op with
  | FetchRestaurants => (DBHelper.fetchRestaurants (record DataRecords) w).2
  | FetchReviews id => (DBHelper.fetchReviews id (record DataRecords) w).2
  | FetchRestaurantById id =>
      (DBHelper.fetchRestaurantById id (record DataRecord) w).2
  | FetchRestaurantByCuisine cuisine =>
      (DBHelper.fetchRestaurantByCuisine cuisine (record DataRecords) w).2
  | FetchRestaurantByNeighborhood neighborhood =>
      (DBHelper.fetchRestaurantByNeighborhood neighborhood
         (record DataRecords) w).2
  | FetchRestaurantByCuisineAndNeighborhood cuisine neighborhood =>
      (DBHelper.fetchRestaurantByCuisineAndNeighborhood cuisine neighborhood
         (record DataRecords) w).2
  | FetchNeighborhoods => (DBHelper.fetchNeighborhoods (record DataValues) w).2
  | FetchCuisines => (DBHelper.fetchCuisines (record DataValues) w).2
  end.


(** What a read operation answers: the one call of the callback it adds. *)
Definition answers (op : ReadOperation) (w : World)
    (call : option CbError * option CbData) : Prop :=
  callbacks (read op w) = callbacks w ++ [call].

(** The composition of [fetchRestaurantByCuisineAndNeighborhood] with its
    two filters in the other order: by neighborhood first, then by cuisine.
    It is not in the source; it states that the order does not matter. *)
Definition filters_in_the_other_order
    (cuisine neighborhood : JSValue)
    (callback : DBHelper.Callback (list JSObject)) : M unit :=
  DBHelper.fetchRestaurants (fun error restaurants =>
    if truthy error then callback error None
    else
      let! results := array_of restaurants in
      let results :=
        if loose_neq neighborhood (JSString "all")
        then List.filter
               (fun r => loose_eq (prop r "neighborhood") neighborhood)
               results
        else results in
      let results :=
        if loose_neq cuisine (JSString "all")
        then List.filter (fun r => loose_eq (prop r "cuisine_type") cuisine)
                         results
        else results in
      callback None (Some results)).

(** [distinctValuesOf], after the specification: each value the first time
    it appears, later copies dropped.  [seen] holds the values kept so
    far. *)
Fixpoint distinctValuesOf_from (seen l : list JSValue) : list JSValue :=
  match l with
  | [] => []
  | v :: l' =>
      if decide (v ∈ seen) then distinctValuesOf_from seen l'
      else v :: distinctValuesOf_from (v :: seen) l'
  end.

Definition distinctValuesOf (l : list JSValue) : list JSValue :=
  distinctValuesOf_from [] l.

(** The values of the property [field] of the records, in their order. *)
Definition field_values (field : string) (rs : list JSObject) : list JSValue :=
  (fun r => prop r field) <$> rs.

(** What [fetchNeighborhoods] and [fetchCuisines] compute from the array
    of field values. *)
Definition unique (values : list JSValue) : list JSValue :=
  filter_indexed
    (fun v i => loose_eq (JSNumber (indexOf values v)) (JSNumber (Z.of_nat i)))
    values.

(** The address [addReview] posts to when the identifier [port] reads as
    [port]. *)
Definition review_url (port : JSValue) : string :=
  "http://localhost:" +:+ ToString port +:+ "/reviews".

(** The review that [addReview] queues: stamped with two readings of the
    clock. *)
Definition stamped (data : JSObject) (updatedAt createdAt : Z) : JSObject :=
  set_prop (set_prop data "updatedAt" (JSNumber updatedAt))
           "createdAt" (JSNumber createdAt).

Definition port_is_not_defined : JSError :=
  ReferenceError "port is not defined".

(** One entry of a store comes strictly before another. *)
Definition precedes (a b : IDBKey * JSObject) : Prop :=
  key_leb a.1 b.1 ∧ a.1 ≠ b.1.

(** The records carry keys at [path] that ascend strictly along the
    array. *)
Definition ascending (path : string) (records : list JSObject) : Prop :=
  StronglySorted precedes (keyed path records).

(** The requests the read path sends. *)
Definition restaurants_request : Request :=
  mkRequest "GET" restaurants_url None.

Definition reviews_request (id : JSValue) : Request :=
  mkRequest "GET" (reviews_url id) None.

(** The queries computed from what [fetchRestaurants] answers. *)
Definition is_query (op : ReadOperation) : bool :=
  match op with
  | FetchReviews _ => false
  | _ => true
  end.

(** The request [addReview] sends when [port] reads as [port]. *)
Definition review_request (port : JSValue) (data : JSObject) : Request :=
  mkRequest "POST" (review_url port) (Some data).

(** A browser on its first visit whose global object binds [port], with a
    clock that reads [now n] at its [n]th reading. *)
Definition browser_with_port (api : Remote) (now : nat → Z) : World :=
  mkWorld true {["port" := JSNumber 1337]} api now 0 empty_database [] [].

(** One of the characters ["0"] to ["9"]. *)
Definition decimal_digit (c : ascii) : Prop :=
  ∃ d, (d < 10)%N ∧ c = pretty_N_char d.

(** The records whose [id] is a number. *)
Definition numeric_ids (rs : list JSObject) : Prop :=
  Forall (fun r => ∃ m, prop r "id" = JSNumber m) rs.

Definition placeholder : string := "https://placehold.it/400x200".

(** A caller's callback that takes note of its arguments and throws [e]
    when it is handed data. *)
Definition record_and_throw (e : JSError) : DBHelper.Callback (list JSObject) :=
  fun error data w =>
    match data with
    | Some _ => (Throw e, log_callback (error, DataRecords <$> data) w)
    | None => (Normal tt, log_callback (error, None) w)
    end.

(** * Properties *)

(** ** Object stores *)

Section Stores.

Implicit Types (s : ObjectStore) (r : JSObject) (k : IDBKey).

Lemma store_getAll_Permutation s : store_getAll s ≡ₚ (map_to_list s).*2.
Proof.
  unfold store_getAll. apply fmap_Permutation, merge_sort_Permutation.
Qed.

Lemma store_getAll_length s : length (store_getAll s) = size s.
Proof.
  rewrite (Permutation_length (store_getAll_Permutation s)).
  by rewrite length_fmap, length_map_to_list.
Qed.

Lemma store_getAll_nil s : store_getAll s = [] ↔ s = ∅.
Proof.
  rewrite <- map_size_empty_iff, <- store_getAll_length.
  split; [by intros -> | by destruct (store_getAll s)].
Qed.

Lemma store_getAll_empty : store_getAll ∅ = [].
Proof. by apply store_getAll_nil. Qed.

Lemma store_getAll_elem s r :
  r ∈ store_getAll s ↔ ∃ k, s !! k = Some r.
Proof.
  rewrite (store_getAll_Permutation s), list_elem_of_fmap. split.
  - intros [[k r'] [-> H]]. exists k. by apply elem_of_map_to_list.
  - intros [k H]. exists (k, r). split; [done | by apply elem_of_map_to_list].
Qed.

Lemma putMany_keyed path records s :
  putMany path records s = list_to_map (reverse (keyed path records)) ∪ s.
Proof.
  revert s. induction records as [|r records IH]; intros s; simpl.
  - by rewrite (left_id_L ∅ (∪)).
  - unfold store_put. destruct (to_key (prop r path)) as [k|]; simpl.
    + rewrite IH, reverse_cons, list_to_map_app. simpl.
      rewrite <- (assoc_L (∪)). f_equal.
      by rewrite insert_empty, <- insert_union_singleton_l.
    + by rewrite (left_id_L ∅ (∪)).
Qed.


Lemma keyed_all_valid path records :
  Forall (fun r => is_Some (to_key (prop r path))) records →
  (keyed path records).*2 = records.
Proof.
  induction 1 as [|r records [k Hk] _ IH]; simpl; [done|].
  rewrite Hk. simpl. by f_equal.
Qed.

Lemma keyed_keys path records :
  Forall (fun r => is_Some (to_key (prop r path))) records →
  Some <$> (keyed path records).*1
  = (fun r => to_key (prop r path)) <$> records.
Proof.
  induction 1 as [|r records [k Hk] _ IH]; simpl; [done|].
  rewrite Hk. simpl. by f_equal.
Qed.

(** Records with valid, pairwise different keys, put into an empty store,
    are the records [getAll] lists, up to their order. *)
Lemma putMany_getAll path records :
  Forall (fun r => is_Some (to_key (prop r path))) records →
  NoDup ((fun r => prop r path) <$> records) →
  store_getAll (putMany path records ∅) ≡ₚ records.
Proof.
  intros Hvalid Hnodup.
  rewrite store_getAll_Permutation, putMany_keyed, (right_id_L ∅ (∪)).
  rewrite map_to_list_to_map.
  - by rewrite fmap_reverse, reverse_Permutation, keyed_all_valid.
  - rewrite fmap_reverse, reverse_Permutation.
    apply (NoDup_fmap_1 Some). rewrite keyed_keys by done.
    assert (Hcompose : (fun r => to_key (prop r path)) <$> records
                       = to_key <$> ((fun r => prop r path) <$> records)).
    { by rewrite <- list_fmap_compose. }
    rewrite Hcompose. clear Hcompose.
    rewrite Forall_forall in Hvalid.
    induction records as [|r records IH]; simpl; [constructor|].
    apply NoDup_cons in Hnodup as [Hr Hnodup].
    apply NoDup_cons. split.
    + intros Hin. apply Hr.
      apply list_elem_of_fmap in Hin as [v [Hv Hin]].
      apply list_elem_of_fmap in Hin as [r' [-> Hin]].
      apply list_elem_of_fmap. exists r'. split; [|done].
      destruct (Hvalid r) as [k Hk]; [left|].
      rewrite Hk in Hv.
      destruct (prop r path), (prop r' path); simpl in *; congruence.
    + apply IH; [|done]. intros x Hx. apply Hvalid. by right.
Qed.

End Stores.

(** ** Running a promise chain, step by step *)

Section Steps.

Context {A B : Type}.
Implicit Types (p : M A) (f : A → M B) (h : JSError → M A) (w : World).

Lemma then_normal p f w a w' :
  p w = (Normal a, w') → then_ p f w = f a w'.
Proof. unfold then_. by intros ->. Qed.

Lemma then_throw p f w e w' :
  p w = (Throw e, w') → then_ p f w = (Throw e, w').
Proof. unfold then_. by intros ->. Qed.

Lemma catch_normal p h w a w' :
  p w = (Normal a, w') → catch_ p h w = (Normal a, w').
Proof. unfold catch_. by intros ->. Qed.

Lemma catch_throw p h w e w' :
  p w = (Throw e, w') → catch_ p h w = h e w'.
Proof. unfold catch_. by intros ->. Qed.

End Steps.

(** ** The read path of [fetchRestaurants] *)

Section ReadPath.

Implicit Types (w : World) (rs : list JSObject).

Lemma set_store_same w :
  set_store IDB_OBJECT (restaurantObject (database w)) w = w.
Proof. by destruct w as [? ? ? ? ? [] ? ?]. Qed.

Lemma set_store_twice name s s' w :
  set_store name s' (set_store name s w) = set_store name s' w.
Proof.
  destruct w as [? ? ? ? ? [] ? ?]. unfold set_store, set_objectStore. simpl.
  repeat case_decide; done.
Qed.

Lemma forEach_put rs w :
  (forEach (fun restaurant => put IDB_OBJECT restaurant) rs w).2
  = set_store IDB_OBJECT (putMany "id" rs (restaurantObject (database w))) w.
Proof.
  revert w. induction rs as [|r rs IH]; intros w; simpl.
  - by rewrite set_store_same.
  - unfold then_, put at 1. simpl. fold (keyPath IDB_OBJECT).
    change (keyPath IDB_OBJECT) with "id".
    destruct (store_put "id" r (restaurantObject (database w))) as [s'|];
      simpl.
    + rewrite IH. fold (set_store IDB_OBJECT s' w).
      by rewrite <- (set_store_twice IDB_OBJECT s' _ w).
    + by rewrite set_store_same.
Qed.

Lemma saveToIDB_restaurants rs w :
  (DBHelper.saveToIDB (Array rs) IDB_OBJECT w).2
  = if serviceWorker w
    then set_store IDB_OBJECT
           (putMany "id" rs (restaurantObject (database w))) w
    else w.
Proof.
  unfold DBHelper.saveToIDB, then_, DBHelper.openIDBConnection.
  destruct (serviceWorker w); simpl; [|done]. apply forEach_put.
Qed.

Lemma DATABASE_URL_resolves w :
  DBHelper.DATABASE_URL w = (Normal restaurants_url, w).
Proof. reflexivity. Qed.

Lemma DATABASE_URL_REVIEWS_resolves w :
  DBHelper.DATABASE_URL_REVIEWS w
  = (Normal "http://localhost:1337/reviews?restaurant_id=", w).
Proof. reflexivity. Qed.

(** Without a service worker there is no database handle, and reading the
    length of the cached records throws. *)
Lemma cached_or_remote_no_handle w :
  serviceWorker w = false →
  cached_or_remote w = (Throw undefined_length, w).
Proof.
  intros H. unfold cached_or_remote, then_, DBHelper.fetchCachedRestaurants,
    then_, DBHelper.openIDBConnection. by rewrite H.
Qed.

Lemma cached_or_remote_hit w :
  serviceWorker w = true →
  restaurantObject (database w) ≠ ∅ →
  cached_or_remote w
  = (Normal (store_getAll (restaurantObject (database w))), w).
Proof.
  intros H Hne. unfold cached_or_remote, then_,
    DBHelper.fetchCachedRestaurants, then_, DBHelper.openIDBConnection.
  rewrite H. simpl.
  destruct (store_getAll (restaurantObject (database w))) eqn:E; [|done].
  by apply store_getAll_nil in E.
Qed.

Lemma cached_or_remote_miss w :
  serviceWorker w = true →
  restaurantObject (database w) = ∅ →
  cached_or_remote w
  = match remote_get (remote w) restaurants_url with
    | NetworkFailure e | Responds _ (inl e) =>
        (Throw e, log_request (mkRequest "GET" restaurants_url None) w)
    | Responds _ (inr rs) =>
        (Normal rs,
         set_store IDB_OBJECT (putMany "id" rs ∅)
           (log_request (mkRequest "GET" restaurants_url None) w))
    end.
Proof.
  intros H Hempty. unfold cached_or_remote, then_,
    DBHelper.fetchCachedRestaurants, then_, DBHelper.openIDBConnection.
  rewrite H. simpl. rewrite Hempty, store_getAll_empty. simpl.
  unfold DBHelper.fetchRestaurantsFromAPI, then_.
  rewrite DATABASE_URL_resolves. unfold fetch_get. simpl.
  destruct (remote_get (remote w) restaurants_url) as [e|ok [e|rs]];
    simpl; try done.
  unfold detached. simpl. rewrite saveToIDB_restaurants. simpl.
  by rewrite H, Hempty.
Qed.

Lemma fetchRestaurants_unfold (cb : DBHelper.Callback (list JSObject)) w :
  DBHelper.fetchRestaurants cb w
  = match cached_or_remote w with
    | (Normal rs, w') =>
        catch_ (cb None (Some rs))
               (fun error => cb (Some (ErrorObject error)) None) w'
    | (Throw e, w') => cb (Some (ErrorObject e)) None w'
    end.
Proof.
  change (DBHelper.fetchRestaurants cb)
    with (catch_ (let! restaurants := cached_or_remote in
                  cb None (Some restaurants))
                 (fun error => cb (Some (ErrorObject error)) None)).
  unfold catch_ at 1, then_ at 1.
  by destruct (cached_or_remote w) as [[rs|e] w'].
Qed.

(** The read path does not call the caller's callback. *)
Lemma cached_or_remote_callbacks w :
  callbacks (cached_or_remote w).2 = callbacks w.
Proof.
  destruct (serviceWorker w) eqn:H.
  - destruct (decide (restaurantObject (database w) = ∅)) as [He|Hne].
    + rewrite cached_or_remote_miss by done.
      by destruct (remote_get (remote w) restaurants_url) as [e|ok [e|rs]].
    + by rewrite cached_or_remote_hit.
  - by rewrite cached_or_remote_no_handle.
Qed.

End ReadPath.

(** ** The read path of [fetchReviews] *)

Section ReviewsPath.

Implicit Types (w : World) (id : JSValue) (l data : list JSObject).

Lemma set_reviews_same w :
  set_store IDB_REVIEWS_OBJECT (reviewsObject (database w)) w = w.
Proof. by destruct w as [? ? ? ? ? [] ? ?]. Qed.

Lemma save_review r w :
  (DBHelper.saveToIDB (Single r) IDB_REVIEWS_OBJECT w).2
  = if serviceWorker w
    then set_store IDB_REVIEWS_OBJECT
           (default (reviewsObject (database w))
                    (store_put "id" r (reviewsObject (database w)))) w
    else w.
Proof.
  unfold DBHelper.saveToIDB, then_, DBHelper.openIDBConnection.
  destruct (serviceWorker w); simpl; [|done].
  unfold put. simpl. fold (keyPath IDB_REVIEWS_OBJECT).
  change (keyPath IDB_REVIEWS_OBJECT) with "id".
  destruct (store_put "id" r (reviewsObject (database w))); simpl; [done|].
  by rewrite set_reviews_same.
Qed.

Lemma save_reviews_run data w :
  save_reviews data w
  = (Normal tt,
     if serviceWorker w
     then set_store IDB_REVIEWS_OBJECT
            (putEach "id" data (reviewsObject (database w))) w
     else w).
Proof.
  unfold save_reviews. revert w.
  induction data as [|r data IH]; intros w; simpl.
  - unfold resolve. destruct (serviceWorker w); [|done].
    by rewrite set_reviews_same.
  - unfold then_ at 1, detached at 1. rewrite IH, save_review.
    destruct (serviceWorker w) eqn:H; simpl; [|by rewrite H].
    rewrite H. by rewrite set_store_twice.
Qed.

Lemma fetchCachedReviews_run id w :
  DBHelper.fetchCachedReviews id w
  = if serviceWorker w
    then match index_getAll "restaurant_id" id
                 (reviewsObject (database w)) with
         | inr reviews => (Normal (Some reviews), w)
         | inl e => (Throw e, w)
         end
    else (Normal None, w).
Proof.
  unfold DBHelper.fetchCachedReviews, then_, DBHelper.openIDBConnection.
  by destruct (serviceWorker w).
Qed.

Lemma fetchReviewsFromAPI_run id w :
  DBHelper.fetchReviewsFromAPI id (record DataRecords) w
  = let w1 := log_request (mkRequest "GET" (reviews_url id) None) w in
    match remote_get (remote w) (reviews_url id) with
    | NetworkFailure e | Responds _ (inl e) =>
        (Normal None, log_callback (Some (ErrorObject e), None) w1)
    | Responds _ (inr data) =>
        (Normal (Some data),
         log_callback (None, Some (DataRecords data))
           (if serviceWorker w
            then set_store IDB_REVIEWS_OBJECT
                   (putEach "id" data (reviewsObject (database w))) w1
            else w1))
    end.
Proof.
  unfold DBHelper.fetchReviewsFromAPI.
  rewrite (then_normal _ _ w _ w (DATABASE_URL_REVIEWS_resolves w)).
  fold (reviews_url id). fold (save_reviews).
  set (w1 := log_request (mkRequest "GET" (reviews_url id) None) w).
  destruct (remote_get (remote w) (reviews_url id)) as [e|ok [e|data]] eqn:R.
  - erewrite catch_throw; [reflexivity|].
    apply then_throw. unfold fetch_get. by rewrite R.
  - erewrite catch_throw; [reflexivity|].
    erewrite then_normal; [|unfold fetch_get; by rewrite R].
    by apply then_throw.
  - erewrite catch_normal; [reflexivity|].
    erewrite then_normal; [|unfold fetch_get; by rewrite R].
    erewrite then_normal; [|reflexivity].
    erewrite then_normal; [|apply save_reviews_run].
    reflexivity.
Qed.

Lemma fetchReviews_no_handle id w :
  serviceWorker w = false →
  DBHelper.fetchReviews id (record DataRecords) w
  = (Normal None, log_callback (Some (ErrorObject undefined_length), None) w).
Proof.
  intros H. unfold DBHelper.fetchReviews.
  erewrite catch_throw; [reflexivity|].
  erewrite then_normal; [|by rewrite fetchCachedReviews_run, H].
  reflexivity.
Qed.


Lemma fetchReviews_hit id l w :
  serviceWorker w = true →
  index_getAll "restaurant_id" id (reviewsObject (database w)) = inr l →
  l ≠ [] →
  DBHelper.fetchReviews id (record DataRecords) w
  = (Normal (Some l), log_callback (None, Some (DataRecords l)) w).
Proof.
  intros H Hq Hne. unfold DBHelper.fetchReviews.
  erewrite catch_normal; [reflexivity|].
  erewrite then_normal; [|by rewrite fetchCachedReviews_run, H, Hq].
  by destruct l.
Qed.

Lemma fetchReviews_miss id w :
  serviceWorker w = true →
  index_getAll "restaurant_id" id (reviewsObject (database w)) = inr [] →
  DBHelper.fetchReviews id (record DataRecords) w
  = let w1 := log_request (mkRequest "GET" (reviews_url id) None) w in
    match remote_get (remote w) (reviews_url id) with
    | NetworkFailure e | Responds _ (inl e) =>
        (Normal None, log_callback (Some (ErrorObject e), None) w1)
    | Responds _ (inr data) =>
        (Normal (Some data),
         log_callback (None, Some (DataRecords data))
           (set_store IDB_REVIEWS_OBJECT
              (putEach "id" data (reviewsObject (database w))) w1))
    end.
Proof.
  intros H Hq. unfold DBHelper.fetchReviews, catch_.
  erewrite then_normal; [|by rewrite fetchCachedReviews_run, H, Hq].
  erewrite then_normal; [|reflexivity].
  cbn -[DBHelper.fetchReviewsFromAPI].
  rewrite fetchReviewsFromAPI_run, H. simpl.
  by destruct (remote_get (remote w) (reviews_url id)) as [e|ok [e|data]].
Qed.

End ReviewsPath.

(** ** The index of the reviews by restaurant *)

Section Index.

Implicit Types (s : ObjectStore) (k : IDBKey) (records : list JSObject).

Lemma keyed_NoDup path records :
  Forall (fun r => is_Some (to_key (prop r path))) records →
  NoDup ((fun r => prop r path) <$> records) →
  NoDup (keyed path records).*1.
Proof.
  intros Hvalid. induction Hvalid as [|r records [k Hk] Hvalid IH]; simpl.
  - constructor.
  - rewrite Hk. simpl. intros [Hr Hnodup]%NoDup_cons.
    apply NoDup_cons. split; [|by apply IH].
    intros Hin. apply Hr.
    apply (list_elem_of_fmap_2 Some) in Hin.
    rewrite keyed_keys in Hin by done.
    apply list_elem_of_fmap in Hin as [r' [Hr' Hin]].
    apply list_elem_of_fmap. exists r'. split; [|done].
    rewrite <- Hk in Hr'.
    destruct (prop r path), (prop r' path); simpl in *; congruence.
Qed.


(** The entries of the store whose index key is [k]. *)
Lemma index_slice path k s :
  (filter (fun e => e.1 = k) (index_entries path s)).*2
  ≡ₚ filter (fun e => to_key (prop e.2 path) = Some k) (map_to_list s).
Proof.
  unfold index_entries. rewrite merge_sort_Permutation.
  induction (map_to_list s) as [|e l IH]; simpl; [done|].
  destruct (to_key (prop e.2 path)) as [ik|] eqn:E; simpl.
  - rewrite !filter_cons. simpl. rewrite E.
    destruct (decide (ik = k)) as [->|Hne].
    + rewrite decide_True by done. simpl. by rewrite IH.
    + rewrite decide_False by congruence. done.
  - rewrite filter_cons. rewrite E. by rewrite decide_False.
Qed.

Lemma index_getAll_key path id k s :
  to_key id = Some k →
  ∃ l, index_getAll path id s = inr l
       ∧ l ≡ₚ (filter (fun e => to_key (prop e.2 path) = Some k)
                      (map_to_list s)).*2.
Proof.
  intros Hk. exists (filter (fun e => e.1 = k) (index_entries path s)).*2.*2.
  split.
  - unfold index_getAll. destruct id; simplify_eq/=; done.
  - by rewrite index_slice.
Qed.



End Index.

(** ** The order of the keys *)

Section KeyOrder.

Implicit Types (a b c : IDBKey).

Lemma string_leb_iff (s t : string) :
  String.leb s t = true ↔ s = t ∨ OrderedTypeEx.String_as_OT.lt s t.
Proof.
  unfold String.leb.
  pose proof (OrderedTypeEx.String_as_OT.cmp_eq s t) as Heq.
  pose proof (OrderedTypeEx.String_as_OT.cmp_lt s t) as Hlt.
  unfold OrderedTypeEx.String_as_OT.cmp in *.
  destruct (String.compare s t); split; try done.
  - intros _. left. by apply Heq.
  - intros _. right. by apply Hlt.
  - intros [H|H]; [by apply Heq in H | by apply Hlt in H].
Qed.

Lemma string_leb_trans (s t u : string) :
  String.leb s t = true → String.leb t u = true → String.leb s u = true.
Proof.
  rewrite !string_leb_iff. intros [->|Hst] [->|Htu]; auto.
  right. by apply (OrderedTypeEx.String_as_OT.lt_trans s t u).
Qed.

Lemma key_leb_total a b : key_leb a b ∨ key_leb b a.
Proof.
  destruct a as [x|s], b as [y|t]; simpl; auto.
  - destruct (decide (x ≤ y)).
    + left. by apply bool_decide_pack.
    + right. apply bool_decide_pack. lia.
  - destruct (String.leb_total s t) as [H|H]; rewrite H; auto.
Qed.

Lemma key_leb_trans a b c : key_leb a b → key_leb b c → key_leb a c.
Proof.
  destruct a as [x|s], b as [y|t], c as [z|u]; simpl; try done.
  - intros H1%bool_decide_unpack H2%bool_decide_unpack.
    apply bool_decide_pack. lia.
  - intros H1%Is_true_true H2%Is_true_true. apply Is_true_true.
    by apply (string_leb_trans s t u).
Qed.

Lemma key_leb_antisym a b : key_leb a b → key_leb b a → a = b.
Proof.
  destruct a as [x|s], b as [y|t]; simpl; try done.
  - intros H1%bool_decide_unpack H2%bool_decide_unpack. f_equal. lia.
  - intros H1%Is_true_true H2%Is_true_true. f_equal.
    by apply String.leb_antisym.
Qed.

#[global] Instance entry_le_total : Total entry_le.
Proof. intros x y. apply key_leb_total. Qed.

#[global] Instance entry_le_trans : Transitive entry_le.
Proof. intros x y z. apply key_leb_trans. Qed.

#[global] Instance index_le_total : Total index_le.
Proof.
  intros x y. unfold index_le, index_leb.
  destruct (decide (x.1 = y.1)) as [Heq|Hne].
  - rewrite decide_True by done. apply key_leb_total.
  - rewrite decide_False by congruence. apply key_leb_total.
Qed.

#[global] Instance index_le_trans : Transitive index_le.
Proof.
  intros x y z. unfold index_le, index_leb.
  destruct (decide (x.1 = y.1)) as [Hxy|Hxy],
           (decide (y.1 = z.1)) as [Hyz|Hyz].
  - rewrite decide_True by congruence. apply key_leb_trans.
  - rewrite decide_False by congruence. by rewrite Hxy.
  - rewrite decide_False by congruence. by rewrite <- Hyz.
  - intros H1 H2. destruct (decide (x.1 = z.1)) as [Hxz|Hxz].
    + exfalso. apply Hxy. apply key_leb_antisym; [done|]. by rewrite Hxz.
    + by apply (key_leb_trans _ y.1).
Qed.

End KeyOrder.

Section Ascending.

Implicit Types (s : ObjectStore) (k : IDBKey) (records : list JSObject).

Lemma precedes_entry_le (l : list (IDBKey * JSObject)) :
  StronglySorted precedes l → StronglySorted entry_le l.
Proof.
  induction 1 as [|x l _ IH Hx]; constructor; [done|].
  eapply Forall_impl; [exact Hx|]. by intros y [].
Qed.

Lemma precedes_NoDup (l : list (IDBKey * JSObject)) :
  StronglySorted precedes l → NoDup l.*1.
Proof.
  induction 1 as [|x l _ IH Hx]; simpl; constructor; [|done].
  intros Hin. apply list_elem_of_fmap in Hin as [y [Heq Hin]].
  rewrite Forall_forall in Hx. by destruct (Hx y Hin).
Qed.

Lemma same_key_same_entry (l : list (IDBKey * JSObject)) x y :
  NoDup l.*1 → x ∈ l → y ∈ l → x.1 = y.1 → x = y.
Proof.
  destruct x as [k r], y as [k' r']. simpl. intros Hnodup Hx Hy <-.
  apply (elem_of_list_to_map_1 (M := gmap IDBKey)) in Hx; [|done].
  apply (elem_of_list_to_map_1 (M := gmap IDBKey)) in Hy; [|done].
  congruence.
Qed.

(** Two listings of the same entries in key order are one listing. *)
Lemma sorted_entries_unique (l1 l2 : list (IDBKey * JSObject)) :
  NoDup l2.*1 → l1 ≡ₚ l2 →
  StronglySorted entry_le l1 → StronglySorted entry_le l2 → l1 = l2.
Proof.
  intros Hnodup Hperm Hl1 Hl2.
  apply (StronglySorted_unique_strong entry_le); try done.
  intros x1 x2 Hx1 Hx2 H12 H21.
  apply (same_key_same_entry l2); [done| |done|].
  - by rewrite <- Hperm.
  - by apply key_leb_antisym.
Qed.

(** Records that arrive in ascending key order are listed by [getAll] as
    they arrived. *)
Lemma putMany_getAll_ascending path records :
  Forall (fun r => is_Some (to_key (prop r path))) records →
  ascending path records →
  store_getAll (putMany path records ∅) = records.
Proof.
  intros Hvalid Hasc. unfold store_getAll.
  rewrite <- (keyed_all_valid path records Hvalid) at 2. f_equal.
  pose proof (precedes_NoDup _ Hasc) as Hnodup.
  apply sorted_entries_unique; [done| | |by apply precedes_entry_le].
  - rewrite merge_sort_Permutation, putMany_keyed, (right_id_L ∅ (∪)).
    rewrite map_to_list_to_map, reverse_Permutation; [done|].
    by rewrite fmap_reverse, reverse_Permutation.
  - apply StronglySorted_merge_sort; apply _.
Qed.



End Ascending.

(** ** Cache hits *)

Section CacheHit.

Implicit Types (w : World) (id : JSValue) (rs data : list JSObject).



Lemma putMany_nonempty path r rs :
  is_Some (to_key (prop r path)) → putMany path (r :: rs) ∅ ≠ ∅.
Proof.
  intros [k Hk] Hempty.
  assert (is_Some (putMany path (r :: rs) ∅ !! k)) as [x Hx].
  { rewrite putMany_keyed, (right_id_L ∅ (∪)). simpl. rewrite Hk.
    apply elem_of_dom. rewrite dom_list_to_map_L.
    apply elem_of_list_to_set. rewrite fmap_reverse, elem_of_reverse.
    simpl. left. }
  rewrite Hempty in Hx. by rewrite lookup_empty in Hx.
Qed.

End CacheHit.



(** ** Without a database handle *)

Lemma fetchRestaurants_no_handle (w : World) :
  serviceWorker w = false →
  DBHelper.fetchRestaurants (record DataRecords) w
  = (Normal tt, log_callback (Some (ErrorObject undefined_length), None) w).
Proof.
  intros H. by rewrite fetchRestaurants_unfold, cached_or_remote_no_handle.
Qed.

(** C4.  In a browser without a service worker [openIDBConnection] yields
    no handle, and [fetchRestaurants], with a server that would answer with
    two restaurants, answers its caller with a TypeError and no data; the
    server is never asked. *)
Theorem degraded_mode_read_fails :
  let w := browser false (online [mission; emily] []) in
  DBHelper.openIDBConnection w = (Normal None, w)
  ∧ DBHelper.fetchRestaurants (record DataRecords) w
    = (Normal tt,
       log_callback (Some (ErrorObject undefined_length), None) w)
  ∧ requests (DBHelper.fetchRestaurants (record DataRecords) w).2 = [].
Proof.
  simpl. split; [reflexivity|].
  rewrite fetchRestaurants_no_handle by reflexivity. by split.
Qed.

(** ** The two channels of the callback *)

Section TwoChannels.

Implicit Types (w : World).



End TwoChannels.


(** ** The query layer *)

Section QueryLayer.

Implicit Types (w : World) (rs : list JSObject) (v id : JSValue).

(** [fetchRestaurants] calls its callback with data and no error, or with
    an exception object and no data: two callbacks that agree on those
    calls give the same run. *)
Lemma fetchRestaurants_ext (cb1 cb2 : DBHelper.Callback (list JSObject)) w :
  (∀ rs w', cb1 None (Some rs) w' = cb2 None (Some rs) w') →
  (∀ e w', cb1 (Some (ErrorObject e)) None w'
           = cb2 (Some (ErrorObject e)) None w') →
  DBHelper.fetchRestaurants cb1 w = DBHelper.fetchRestaurants cb2 w.
Proof.
  intros Hdata Herror. rewrite !fetchRestaurants_unfold.
  destruct (cached_or_remote w) as [[rs|e] w']; [|apply Herror].
  unfold catch_. rewrite Hdata.
  destruct (cb2 None (Some rs) w') as [[[]|e] w'']; [done | apply Herror].
Qed.

Lemma answers_data w rs :
  answers FetchRestaurants w (None, Some (DataRecords rs)) →
  ∃ w', cached_or_remote w = (Normal rs, w') ∧ callbacks w' = callbacks w.
Proof.
  unfold answers. simpl. rewrite fetchRestaurants_unfold.
  pose proof (cached_or_remote_callbacks w) as Hframe.
  destruct (cached_or_remote w) as [[rs'|e] w']; simpl in *;
    rewrite Hframe; intros Heq%app_inv_head; [|done].
  injection Heq as ->. by exists w'.
Qed.

Lemma answers_error w error :
  answers FetchRestaurants w (Some error, None) →
  ∃ e w', error = ErrorObject e ∧ cached_or_remote w = (Throw e, w')
          ∧ callbacks w' = callbacks w.
Proof.
  unfold answers. simpl. rewrite fetchRestaurants_unfold.
  pose proof (cached_or_remote_callbacks w) as Hframe.
  destruct (cached_or_remote w) as [[rs'|e] w']; simpl in *;
    rewrite Hframe; intros Heq%app_inv_head; [done|].
  injection Heq as <-. by exists e, w'.
Qed.

(** Only the string ["all"] is [==] to ["all"]. *)
Lemma loose_eq_all v :
  loose_eq v (JSString "all") = true ↔ v = JSString "all".
Proof.
  destruct v as [| |[]|n|s]; simpl; try (split; [done | congruence]).
  rewrite bool_decide_eq_true. split; congruence.
Qed.

Lemma loose_neq_all v :
  v ≠ JSString "all" → loose_neq v (JSString "all") = true.
Proof.
  intros Hne. unfold loose_neq. apply negb_true_iff, not_true_is_false.
  by rewrite loose_eq_all.
Qed.

Lemma filter_filter_comm {A} (f g : A → bool) (l : list A) :
  List.filter f (List.filter g l) = List.filter g (List.filter f l).
Proof.
  induction l as [|x l IH]; simpl; [done|].
  destruct (f x) eqn:Hf, (g x) eqn:Hg; simpl; rewrite ?Hf, ?Hg, ?IH; done.
Qed.

End QueryLayer.

(** C5.  With both arguments ["all"] the two-field query is
    [fetchRestaurants]; with one argument ["all"] and the other not, it is
    the single-field query of the other argument; and filtering by
    neighborhood first, then by cuisine, gives the same run. *)
Theorem sentinel_filter_composition :
  (∀ cb w,
     DBHelper.fetchRestaurantByCuisineAndNeighborhood
       (JSString "all") (JSString "all") cb w
     = DBHelper.fetchRestaurants cb w)
  ∧ (∀ cuisine cb w,
       cuisine ≠ JSString "all" →
       DBHelper.fetchRestaurantByCuisineAndNeighborhood
         cuisine (JSString "all") cb w
       = DBHelper.fetchRestaurantByCuisine cuisine cb w)
  ∧ (∀ neighborhood cb w,
       neighborhood ≠ JSString "all" →
       DBHelper.fetchRestaurantByCuisineAndNeighborhood
         (JSString "all") neighborhood cb w
       = DBHelper.fetchRestaurantByNeighborhood neighborhood cb w)
  ∧ (∀ cuisine neighborhood cb w,
       DBHelper.fetchRestaurantByCuisineAndNeighborhood
         cuisine neighborhood cb w
       = filters_in_the_other_order cuisine neighborhood cb w).
Proof.
  split; [|split; [|split]].
  - intros cb w. by apply fetchRestaurants_ext.
  - intros cuisine cb w Hne. apply fetchRestaurants_ext; [|done].
    intros rs w'. cbv beta iota zeta delta [truthy array_of then_ resolve].
    by rewrite (loose_neq_all cuisine Hne).
  - intros neighborhood cb w Hne. apply fetchRestaurants_ext; [|done].
    intros rs w'. cbv beta iota zeta delta [truthy array_of then_ resolve].
    by rewrite (loose_neq_all neighborhood Hne).
  - intros cuisine neighborhood cb w. apply fetchRestaurants_ext; [|done].
    intros rs w'. cbv beta iota zeta delta [truthy array_of then_ resolve].
    destruct (loose_neq cuisine _), (loose_neq neighborhood _); try done.
    by rewrite filter_filter_comm.
Qed.

(** The Asian restaurants of any neighborhood are the Asian restaurants. *)
Lemma sentinel_filter_composition_witness :
  JSString "Asian" ≠ JSString "all"
  ∧ read (FetchRestaurantByCuisineAndNeighborhood
            (JSString "Asian") (JSString "all"))
         (browser true (online [mission; emily; kang_ho] []))
    = read (FetchRestaurantByCuisine (JSString "Asian"))
           (browser true (online [mission; emily; kang_ho] []))
  ∧ answers (FetchRestaurantByCuisine (JSString "Asian"))
            (browser true (online [mission; emily; kang_ho] []))
            (None, Some (DataRecords [mission; kang_ho])).
Proof.
  assert (JSString "Asian" ≠ JSString "all") as Hne by discriminate.
  split; [exact Hne|]. split; [|reflexivity].
  exact (f_equal snd
           (proj1 (proj2 sentinel_filter_composition)
              (JSString "Asian") (record DataRecords) _ Hne)).
Defined.

(** ** Distinct values *)

Section Distinct.

Implicit Types (v : JSValue) (l pre seen : list JSValue).

Lemma indexOf_from_app_elem i pre l v :
  v ∈ pre →
  indexOf_from i (pre ++ l) v = indexOf_from i pre v
  ∧ i ≤ indexOf_from i pre v < i + Z.of_nat (length pre).
Proof.
  revert i. induction pre as [|x pre IH]; intros i Hin.
  - by apply elem_of_nil in Hin.
  - simpl. unfold strict_eq. case_bool_decide as Hx; [lia|].
    apply elem_of_cons in Hin as [->|Hin]; [done|].
    destruct (IH (i + 1) Hin) as [-> ?]. lia.
Qed.

Lemma indexOf_from_app_not_elem i pre l v :
  v ∉ pre →
  indexOf_from i (pre ++ l) v = indexOf_from (i + Z.of_nat (length pre)) l v.
Proof.
  revert i. induction pre as [|x pre IH]; intros i Hnin; simpl.
  - f_equal. lia.
  - apply not_elem_of_cons in Hnin as [Hne Hnin].
    unfold strict_eq. rewrite bool_decide_eq_false_2 by congruence.
    rewrite IH by done. f_equal. lia.
Qed.

(** A value sits at the index [indexOf] gives exactly where it appears
    for the first time. *)
Lemma indexOf_first pre v l :
  indexOf (pre ++ v :: l) v = Z.of_nat (length pre) ↔ v ∉ pre.
Proof.
  unfold indexOf. split.
  - intros Heq Hin.
    destruct (indexOf_from_app_elem 0 pre (v :: l) v Hin) as [Hpre ?]. lia.
  - intros Hnin. rewrite indexOf_from_app_not_elem by done. simpl.
    unfold strict_eq. by rewrite bool_decide_eq_true_2.
Qed.

Lemma unique_from pre seen l :
  (∀ v, v ∈ seen ↔ v ∈ pre) →
  filter_indexed_from
    (fun v i => loose_eq (JSNumber (indexOf (pre ++ l) v))
                         (JSNumber (Z.of_nat i)))
    (length pre) l
  = distinctValuesOf_from seen l.
Proof.
  revert pre seen. induction l as [|x l IH]; intros pre seen Hseen; [done|].
  simpl.
  assert (Hstep : ∀ seen', (∀ v, v ∈ seen' ↔ v ∈ pre ++ [x]) →
            filter_indexed_from
              (fun v i => loose_eq (JSNumber (indexOf (pre ++ x :: l) v))
                                   (JSNumber (Z.of_nat i)))
              (S (length pre)) l
            = distinctValuesOf_from seen' l).
  { intros seen' Hseen'. specialize (IH (pre ++ [x]) seen' Hseen').
    rewrite <- (assoc_L (++)), length_app in IH. simpl in IH.
    by rewrite Nat.add_1_r in IH. }
  destruct (decide (x ∈ seen)) as [Hin|Hnin].
  - rewrite bool_decide_eq_false_2.
    + apply Hstep. intros v. rewrite elem_of_app, list_elem_of_singleton.
      rewrite Hseen. split; [by left|]. intros [?| ->]; [done|].
      by apply Hseen.
    + rewrite indexOf_first. intros Hnin. by apply Hnin, Hseen.
  - rewrite bool_decide_eq_true_2.
    + f_equal. apply Hstep. intros v.
      rewrite elem_of_cons, elem_of_app, list_elem_of_singleton, Hseen.
      tauto.
    + apply indexOf_first. intros Hin. by apply Hnin, Hseen.
Qed.

(** The code computes [distinctValuesOf]. *)
Lemma unique_distinctValuesOf l : unique l = distinctValuesOf l.
Proof. by apply (unique_from [] [] l). Qed.

Lemma distinctValuesOf_from_elem seen l v :
  v ∈ distinctValuesOf_from seen l ↔ v ∈ l ∧ v ∉ seen.
Proof.
  revert seen. induction l as [|x l IH]; intros seen; simpl.
  - rewrite !elem_of_nil. tauto.
  - destruct (decide (x ∈ seen)) as [Hin|Hnin].
    + rewrite IH, elem_of_cons. split; [tauto|].
      intros [[->|?] ?]; tauto.
    + rewrite !elem_of_cons, IH, not_elem_of_cons.
      destruct (decide (v = x)) as [->|Hne]; tauto.
Qed.

Lemma distinctValuesOf_from_NoDup seen l :
  NoDup (distinctValuesOf_from seen l).
Proof.
  revert seen. induction l as [|x l IH]; intros seen; simpl; [constructor|].
  destruct (decide (x ∈ seen)); [done|].
  apply NoDup_cons. split; [|done].
  rewrite distinctValuesOf_from_elem, not_elem_of_cons. tauto.
Qed.

Lemma distinctValuesOf_from_sublist seen l :
  distinctValuesOf_from seen l `sublist_of` l.
Proof.
  revert seen. induction l as [|x l IH]; intros seen; simpl; [done|].
  destruct (decide (x ∈ seen));
    [by apply sublist_cons | by apply sublist_skip].
Qed.

(** The values are read at the indices that [map] visits. *)
Lemma imap_element field rs :
  imap (fun i (v : JSObject) => prop (element rs i) field) rs
  = field_values field rs.
Proof.
  unfold field_values. rewrite <- (imap_const (fun r => prop r field)).
  apply imap_ext. intros i r Hi. unfold element. by rewrite Hi.
Qed.

End Distinct.

(** ** What the queries answer *)

Section Answers.

Implicit Types (w : World) (rs : list JSObject) (v id : JSValue).

(** A query answers what its callback, called with the restaurants,
    answers. *)
Lemma query_answers (cb : DBHelper.Callback (list JSObject)) w rs call :
  answers FetchRestaurants w (None, Some (DataRecords rs)) →
  (∀ w', cb None (Some rs) w' = (Normal tt, log_callback call w')) →
  callbacks (DBHelper.fetchRestaurants cb w).2 = callbacks w ++ [call].
Proof.
  intros (w' & Hrun & Hframe)%answers_data Hcb.
  rewrite fetchRestaurants_unfold, Hrun. unfold catch_. rewrite Hcb. simpl.
  by rewrite Hframe.
Qed.

(** A query hands on the error of a failed read. *)
Lemma query_fails (cb : DBHelper.Callback (list JSObject)) w error call :
  answers FetchRestaurants w (Some error, None) →
  (∀ e w', cb (Some (ErrorObject e)) None w'
           = (Normal tt, log_callback (call (ErrorObject e)) w')) →
  callbacks (DBHelper.fetchRestaurants cb w).2 = callbacks w ++ [call error].
Proof.
  intros (e & w' & -> & Hrun & Hframe)%answers_error Hcb.
  rewrite fetchRestaurants_unfold, Hrun, Hcb. simpl. by rewrite Hframe.
Qed.

Lemma fetchNeighborhoods_answers w rs :
  answers FetchRestaurants w (None, Some (DataRecords rs)) →
  answers FetchNeighborhoods w
    (None, Some (DataValues (unique (field_values "neighborhood" rs)))).
Proof.
  intros Hrs. apply (query_answers _ w rs); [done|]. intros w'.
  cbv beta iota zeta delta [truthy array_of then_ resolve record].
  by rewrite imap_element.
Qed.

Lemma fetchCuisines_answers w rs :
  answers FetchRestaurants w (None, Some (DataRecords rs)) →
  answers FetchCuisines w
    (None, Some (DataValues (unique (field_values "cuisine_type" rs)))).
Proof.
  intros Hrs. apply (query_answers _ w rs); [done|]. intros w'.
  cbv beta iota zeta delta [truthy array_of then_ resolve record].
  by rewrite imap_element.
Qed.

Lemma fetchRestaurantById_answers w rs id :
  answers FetchRestaurants w (None, Some (DataRecords rs)) →
  answers (FetchRestaurantById id) w
    match List.find (fun r => loose_eq (prop r "id") id) rs with
    | Some restaurant => (None, Some (DataRecord restaurant))
    | None => (Some (ErrorMessage "Restaurant does not exist"), None)
    end.
Proof.
  intros Hrs. apply (query_answers _ w rs); [done|]. intros w'.
  cbv beta iota zeta delta [truthy array_of then_ resolve record].
  by destruct (List.find _ rs).
Qed.


Lemma find_nowhere {A} (f : A → bool) (l : list A) :
  Forall (fun y => f y = false) l → List.find f l = None.
Proof.
  induction 1 as [|y l Hy _ IH]; simpl; [done|]. by rewrite Hy.
Qed.

Lemma find_somewhere {A} (f : A → bool) (l : list A) (x : A) :
  x ∈ l → f x = true →
  ∃ y, List.find f l = Some y ∧ y ∈ l ∧ f y = true.
Proof.
  intros Hin Hx. induction l as [|z l IH]; [by apply elem_of_nil in Hin|].
  simpl. destruct (f z) eqn:Hz.
  - exists z. split; [done|]. split; [left | done].
  - apply elem_of_cons in Hin as [->|Hin]; [congruence|].
    destruct (IH Hin) as (y & Hfind & Hy & Hfy).
    exists y. split; [done|]. split; [by right | done].
Qed.

End Answers.

(** Membership in a list written out, up to equalities between its
    elements. *)
Ltac elem_of_list :=
  rewrite ?elem_of_cons, ?elem_of_nil; intuition congruence.

Section DistinctOrder.

Implicit Types (v : JSValue) (l seen : list JSValue).

Lemma distinctValuesOf_from_app seen l1 l2 :
  distinctValuesOf_from seen (l1 ++ l2)
  = distinctValuesOf_from seen l1
    ++ distinctValuesOf_from
         (reverse (distinctValuesOf_from seen l1) ++ seen) l2.
Proof.
  revert seen. induction l1 as [|x l1 IH]; intros seen; simpl; [done|].
  destruct (decide (x ∈ seen)); [apply IH|].
  rewrite IH. simpl. rewrite reverse_cons. by rewrite <- (assoc_L (++)).
Qed.

End DistinctOrder.

(** C6.  When [fetchRestaurants] answers with the restaurants [rs],
    [fetchNeighborhoods] and [fetchCuisines] answer with the distinct values
    of the field, as the specification defines them: every value of the
    field once, in the order of the field values, a longer input only
    adding at the end; [A,B,A,C,B] gives [A,B,C]. *)
Theorem stable_deduplication :
  (∀ w rs,
     answers FetchRestaurants w (None, Some (DataRecords rs)) →
     answers FetchNeighborhoods w
       (None,
        Some (DataValues (distinctValuesOf (field_values "neighborhood" rs))))
     ∧ answers FetchCuisines w
         (None,
          Some (DataValues (distinctValuesOf (field_values "cuisine_type" rs)))))
  ∧ (∀ l, unique l = distinctValuesOf l
          ∧ NoDup (distinctValuesOf l)
          ∧ (∀ v, v ∈ distinctValuesOf l ↔ v ∈ l)
          ∧ distinctValuesOf l `sublist_of` l
          ∧ (∀ l', distinctValuesOf l `prefix_of` distinctValuesOf (l ++ l')))
  ∧ (∀ A B C, A ≠ B → A ≠ C → B ≠ C →
              unique [A; B; A; C; B] = [A; B; C]).
Proof.
  split; [|split].
  - intros w rs Hrs. rewrite <- !unique_distinctValuesOf.
    split;
      [by apply fetchNeighborhoods_answers | by apply fetchCuisines_answers].
  - intros l. split; [apply unique_distinctValuesOf|].
    split; [apply distinctValuesOf_from_NoDup|].
    split; [|split].
    + intros v. unfold distinctValuesOf. rewrite distinctValuesOf_from_elem.
      rewrite elem_of_nil. tauto.
    + apply distinctValuesOf_from_sublist.
    + intros l'. unfold distinctValuesOf. rewrite distinctValuesOf_from_app.
      by eexists.
  - intros A B C HAB HAC HBC. rewrite unique_distinctValuesOf.
    unfold distinctValuesOf. simpl.
    rewrite (decide_False (P := B ∈ [A])) by elem_of_list.
    rewrite (decide_True (P := A ∈ [B; A])) by elem_of_list.
    rewrite (decide_False (P := C ∈ [B; A])) by elem_of_list.
    by rewrite (decide_True (P := B ∈ [C; B; A])) by elem_of_list.
Qed.

(** Manhattan, Brooklyn, Manhattan: Manhattan, Brooklyn. *)
Lemma stable_deduplication_witness :
  answers FetchNeighborhoods
    (browser true (online [mission; emily; kang_ho] []))
    (None, Some (DataValues [JSString "Manhattan"; JSString "Brooklyn"]))
  ∧ unique [JSNumber 1; JSNumber 2; JSNumber 1; JSNumber 3; JSNumber 2]
    = [JSNumber 1; JSNumber 2; JSNumber 3].
Proof.
  split.
  - exact (proj1 (proj1 stable_deduplication
                    (browser true (online [mission; emily; kang_ho] []))
                    [mission; emily; kang_ho] eq_refl)).
  - apply (proj2 (proj2 stable_deduplication)); discriminate.
Defined.





(** ** Saving the restaurants twice *)


(** ** Submitting a review *)

Section AddReview.

Implicit Types (w : World) (data : JSObject) (cb : option CbError → M unit).

Lemma identifier_port w :
  identifier "port" w
  = match globals w !! "port" with
    | Some v => (Normal v, w)
    | None => (Throw port_is_not_defined, w)
    end.
Proof. reflexivity. Qed.

(** [port] is no constant of the module ([PORT] is): unless the global
    object binds it, [addReview] throws before it calls [fetch]. *)
Lemma addReview_port_unbound data cb w :
  globals w !! "port" = None →
  DBHelper.addReview data cb w = (Throw port_is_not_defined, w).
Proof.
  intros H. unfold DBHelper.addReview.
  apply then_throw. by rewrite identifier_port, H.
Qed.

Lemma save_offline r w :
  (DBHelper.saveToIDB (Single r) IDB_REVIEWS_OBJECT_OFFLINE w).2
  = if serviceWorker w
    then set_store IDB_REVIEWS_OBJECT_OFFLINE
           (default (reviewsOfflineObject (database w))
              (store_put "updatedAt" r (reviewsOfflineObject (database w)))) w
    else w.
Proof.
  unfold DBHelper.saveToIDB, then_, DBHelper.openIDBConnection.
  destruct (serviceWorker w); simpl; [|done].
  unfold put. simpl. fold (keyPath IDB_REVIEWS_OBJECT_OFFLINE).
  change (keyPath IDB_REVIEWS_OBJECT_OFFLINE) with "updatedAt".
  destruct (store_put "updatedAt" r (reviewsOfflineObject (database w)));
    simpl; [done|].
  by destruct w as [? ? ? ? ? [] ? ?].
Qed.

(** Were [port] bound, a review submitted with no connection would be
    queued: stamped, under its [updatedAt], in the offline store only;
    the callback is not called. *)
Lemma addReview_port_bound_offline data port e w :
  globals w !! "port" = Some port →
  serviceWorker w = true →
  remote_post (remote w) (review_url port) data = NetworkFailure e →
  let w' := (DBHelper.addReview data record1 w).2 in
  let item := stamped data (clock w (ticks w)) (clock w (S (ticks w))) in
  reviewsOfflineObject (database w')
  = <[KeyNumber (clock w (ticks w)) := item]>
      (reviewsOfflineObject (database w))
  ∧ reviewsObject (database w') = reviewsObject (database w)
  ∧ callbacks w' = callbacks w.
Proof.
  intros Hport H Hpost. simpl. unfold DBHelper.addReview.
  erewrite then_normal; [|by rewrite identifier_port, Hport].
  fold (review_url port).
  erewrite catch_throw;
    [|apply then_throw; unfold fetch_post; by rewrite Hpost].
  unfold then_, getTime, detached. simpl.
  rewrite save_offline. simpl. rewrite H. unfold store_put, stamped.
  unfold prop, set_prop.
  rewrite lookup_insert_ne, lookup_insert_eq by done. simpl.
  by destruct w as [? ? ? ? ? [] ? ?].
Qed.

(** Were [port] bound, a review the server accepts would be put into the
    reviews store under the id the server gave it, after the callback is
    called with no error. *)
Lemma addReview_port_bound_online data port ok created k w :
  globals w !! "port" = Some port →
  serviceWorker w = true →
  remote_post (remote w) (review_url port) data = Responds ok (inr created) →
  to_key (prop created "id") = Some k →
  let w' := (DBHelper.addReview data record1 w).2 in
  reviewsObject (database w') = <[k := created]> (reviewsObject (database w))
  ∧ reviewsOfflineObject (database w') = reviewsOfflineObject (database w)
  ∧ callbacks w' = callbacks w ++ [(None, None)].
Proof.
  intros Hport H Hpost Hk.
  assert (DBHelper.addReview data record1 w
          = (Normal tt,
             set_store IDB_REVIEWS_OBJECT
               (<[k := created]> (reviewsObject (database w)))
               (log_callback (None, None)
                  (log_request
                     (mkRequest "POST" (review_url port) (Some data)) w))))
    as Hrun.
  { unfold DBHelper.addReview.
    erewrite then_normal; [|by rewrite identifier_port, Hport].
    fold (review_url port). unfold catch_.
    erewrite then_normal; [|unfold fetch_post; by rewrite Hpost].
    unfold with_pending, record1, then_, json, detached. simpl.
    rewrite save_review. simpl. rewrite H. unfold store_put.
    by rewrite Hk. }
  simpl. rewrite Hrun. by destruct w as [? ? ? ? ? [] ? ?].
Qed.

End AddReview.

(** C2.  A review submitted while the server cannot be reached, in a
    browser whose global object does not bind [port]: [addReview] throws a
    ReferenceError; no request is sent, and the offline store stays
    empty. *)
Theorem offline_write_is_not_queued :
  let w := browser true unreachable in
  DBHelper.addReview draft record1 w = (Throw port_is_not_defined, w)
  ∧ reviewsOfflineObject (database (DBHelper.addReview draft record1 w).2) = ∅
  ∧ requests (DBHelper.addReview draft record1 w).2 = [].
Proof.
  simpl. by rewrite addReview_port_unbound.
Qed.

(** C3.  A review submitted while the server would accept it, in a browser
    whose global object does not bind [port]: [addReview] throws a
    ReferenceError; no request is sent, the callback is not called, and the
    reviews store stays empty. *)
Theorem online_write_is_not_stored :
  let w := browser true (online [] []) in
  DBHelper.addReview draft record1 w = (Throw port_is_not_defined, w)
  ∧ reviewsObject (database (DBHelper.addReview draft record1 w).2) = ∅
  ∧ requests (DBHelper.addReview draft record1 w).2 = []
  ∧ callbacks (DBHelper.addReview draft record1 w).2 = [].
Proof.
  simpl. by rewrite addReview_port_unbound.
Qed.

(** * Further properties *)

(** ** When the server does not answer *)

(** X1.  [fetchRestaurants] with an empty store and a request that fails
    (no connection, or a body that is not JSON) hands that error to the
    callback with no data, after one request, and leaves the database as
    it was; a second call asks the server again. *)
Theorem failed_fetch_caches_nothing (w : World) (e : JSError) :
  serviceWorker w = true →
  restaurantObject (database w) = ∅ →
  (remote_get (remote w) restaurants_url = NetworkFailure e
   ∨ ∃ ok, remote_get (remote w) restaurants_url = Responds ok (inl e)) →
  let w1 := read FetchRestaurants w in
  let w2 := read FetchRestaurants w1 in
  answers FetchRestaurants w (Some (ErrorObject e), None)
  ∧ database w1 = database w
  ∧ requests w1 = requests w ++ [restaurants_request]
  ∧ requests w2 = requests w ++ [restaurants_request; restaurants_request].
Proof.
  intros H Hempty Hremote.
  assert (∀ v, serviceWorker v = true → restaurantObject (database v) = ∅ →
               remote_get (remote v) restaurants_url
               = remote_get (remote w) restaurants_url →
               read FetchRestaurants v
               = log_callback (Some (ErrorObject e), None)
                   (log_request restaurants_request v)) as Hrun.
  { intros v Hv Hve Hvr. simpl.
    rewrite fetchRestaurants_unfold, cached_or_remote_miss, Hvr by done.
    by destruct Hremote as [->|[ok ->]]. }
  simpl. unfold answers.
  change (DBHelper.fetchRestaurants (record DataRecords) w).2
    with (read FetchRestaurants w).
  rewrite (Hrun w) by done.
  change (DBHelper.fetchRestaurants (record DataRecords) ?v).2
    with (read FetchRestaurants v).
  rewrite Hrun by done. simpl. repeat split.
  by rewrite <- (assoc_L (++)).
Qed.

Lemma failed_fetch_caches_nothing_witness :
  let w := browser true unreachable in
  answers FetchRestaurants w (Some (ErrorObject failed_to_fetch), None)
  ∧ database (read FetchRestaurants w) = database w
  ∧ requests (read FetchRestaurants (read FetchRestaurants w))
    = [restaurants_request; restaurants_request].
Proof.
  destruct (failed_fetch_caches_nothing (browser true unreachable)
              failed_to_fetch eq_refl eq_refl (or_introl eq_refl))
    as (Hanswer & Hdb & _ & Hreq).
  by repeat split.
Defined.

(** X2.  [fetchReviews] with no cached review of the restaurant and a
    request that fails hands that error to the callback with no data, after
    one request to the reviews of that restaurant, and leaves the database
    as it was. *)
Theorem failed_reviews_fetch_caches_nothing (w : World) (id : JSValue)
    (e : JSError) :
  serviceWorker w = true →
  index_getAll "restaurant_id" id (reviewsObject (database w)) = inr [] →
  (remote_get (remote w) (reviews_url id) = NetworkFailure e
   ∨ ∃ ok, remote_get (remote w) (reviews_url id) = Responds ok (inl e)) →
  let w1 := read (FetchReviews id) w in
  answers (FetchReviews id) w (Some (ErrorObject e), None)
  ∧ database w1 = database w
  ∧ requests w1 = requests w ++ [reviews_request id].
Proof.
  intros H Hmiss Hremote. simpl. unfold answers. simpl.
  rewrite fetchReviews_miss by done. simpl.
  by destruct Hremote as [->|[ok ->]].
Qed.

Lemma failed_reviews_fetch_caches_nothing_witness :
  let w := browser true unreachable in
  answers (FetchReviews (JSNumber 1)) w
    (Some (ErrorObject failed_to_fetch), None)
  ∧ requests (read (FetchReviews (JSNumber 1)) w)
    = [reviews_request (JSNumber 1)].
Proof.
  destruct (failed_reviews_fetch_caches_nothing (browser true unreachable)
              (JSNumber 1) failed_to_fetch eq_refl eq_refl
              (or_introl eq_refl))
    as (Hanswer & _ & Hreq).
  by split.
Defined.

(** ** Requests *)

(** X3.  [fetchRestaurants] sends one request, to the restaurants endpoint,
    exactly when there is a database handle and the restaurants store is
    empty; otherwise it sends none. *)
Theorem one_request_per_miss (w : World) :
  requests (read FetchRestaurants w)
  = if serviceWorker w && bool_decide (restaurantObject (database w) = ∅)
    then requests w ++ [restaurants_request]
    else requests w.
Proof.
  simpl. rewrite fetchRestaurants_unfold.
  destruct (serviceWorker w) eqn:H; simpl.
  - case_bool_decide as Hempty.
    + rewrite cached_or_remote_miss by done.
      by destruct (remote_get (remote w) restaurants_url) as [e|ok [e|rs]].
    + by rewrite cached_or_remote_hit.
  - by rewrite cached_or_remote_no_handle.
Qed.

Section Frame.

Implicit Types (w : World) (cb : DBHelper.Callback (list JSObject)).

(** A world that differs from another one in the noted callbacks only. *)
Lemma fetchRestaurants_frame cb w :
  (∀ error data w', database (cb error data w').2 = database w'
                    ∧ requests (cb error data w').2 = requests w') →
  database (DBHelper.fetchRestaurants cb w).2 = database (cached_or_remote w).2
  ∧ requests (DBHelper.fetchRestaurants cb w).2
    = requests (cached_or_remote w).2.
Proof.
  intros Hcb. rewrite fetchRestaurants_unfold.
  destruct (cached_or_remote w) as [[rs|e] w']; simpl; [|apply Hcb].
  unfold catch_. pose proof (Hcb None (Some rs) w') as [Hdb Hreq].
  destruct (cb None (Some rs) w') as [[[]|e] w'']; simpl in *; [done|].
  destruct (Hcb (Some (ErrorObject e)) None w'') as [-> ->]. done.
Qed.

End Frame.

(** X4.  A query (by id, by cuisine, by neighborhood, by both, the
    neighborhoods, the cuisines) sends the requests and makes the changes
    to the database that [fetchRestaurants] makes, and no others. *)
Theorem queries_add_no_effect (op : ReadOperation) (w : World) :
  is_query op = true →
  database (read op w) = database (read FetchRestaurants w)
  ∧ requests (read op w) = requests (read FetchRestaurants w).
Proof.
  intros Hop.
  assert (∀ cb : DBHelper.Callback (list JSObject),
            (∀ error data w',
               database (cb error data w').2 = database w'
               ∧ requests (cb error data w').2 = requests w') →
            database (DBHelper.fetchRestaurants cb w).2
            = database (read FetchRestaurants w)
            ∧ requests (DBHelper.fetchRestaurants cb w).2
              = requests (read FetchRestaurants w)) as Hframe.
  { intros cb Hcb. simpl.
    destruct (fetchRestaurants_frame cb w Hcb) as [-> ->].
    by destruct (fetchRestaurants_frame (record DataRecords) w) as [-> ->]. }
  destruct op; try discriminate; simpl; apply Hframe;
    intros error data w'.
  - done.
  - destruct (truthy error); [done|]. destruct data as [rs|]; [|done].
    cbv beta iota zeta delta [array_of then_ resolve].
    by destruct (List.find _ rs).
  - destruct (truthy error); [done|]. by destruct data.
  - destruct (truthy error); [done|]. by destruct data.
  - destruct (truthy error); [done|]. by destruct data.
  - destruct (truthy error); [done|]. by destruct data.
  - destruct (truthy error); [done|]. by destruct data.
Qed.

Lemma queries_add_no_effect_witness :
  requests (read (FetchRestaurantByCuisine (JSString "Pizza"))
              (browser true (online [mission; emily] [])))
  = [restaurants_request].
Proof.
  destruct (queries_add_no_effect
              (FetchRestaurantByCuisine (JSString "Pizza"))
              (browser true (online [mission; emily] [])) eq_refl)
    as [_ ->].
  reflexivity.
Defined.

(** ** Without a database handle, again *)

(** X5.  In a browser without a service worker every read operation
    answers with the TypeError of reading [length] of [undefined] and no
    data; it sends no request and does not touch the database. *)
Theorem no_handle_no_read (op : ReadOperation) (w : World) :
  serviceWorker w = false →
  read op w = log_callback (Some (ErrorObject undefined_length), None) w.
Proof.
  intros H. destruct op;
    unfold read, DBHelper.fetchRestaurantById,
      DBHelper.fetchRestaurantByCuisine,
      DBHelper.fetchRestaurantByNeighborhood,
      DBHelper.fetchRestaurantByCuisineAndNeighborhood,
      DBHelper.fetchNeighborhoods, DBHelper.fetchCuisines;
    try (by rewrite fetchReviews_no_handle);
    by rewrite fetchRestaurants_unfold, cached_or_remote_no_handle.
Qed.

Lemma no_handle_no_read_witness :
  read (FetchRestaurantById (JSNumber 1))
       (browser false (online [mission; emily] [steve]))
  = log_callback (Some (ErrorObject undefined_length), None)
      (browser false (online [mission; emily] [steve]))
  ∧ read (FetchReviews (JSNumber 1))
         (browser false (online [mission; emily] [steve]))
    = log_callback (Some (ErrorObject undefined_length), None)
        (browser false (online [mission; emily] [steve])).
Proof.
  split; by apply no_handle_no_read.
Defined.

(** ** The status of a response *)



(** ** The reviews cache is keyed by restaurant *)

Section ReviewsKey.

Implicit Types (w : World) (id : JSValue) (k : IDBKey) (s : ObjectStore).

Lemma index_slice_nil path id k s :
  to_key id = Some k →
  index_getAll path id s = inr []
  ↔ ¬ ∃ pk r, s !! pk = Some r ∧ to_key (prop r path) = Some k.
Proof.
  intros Hk. destruct (index_getAll_key path id k s Hk) as [l [-> Hl]].
  split.
  - intros [= ->] (pk & r & Hr & Hik).
    symmetry in Hl. apply Permutation_nil_r, fmap_nil_inv in Hl.
    assert ((pk, r) ∈ filter (fun e => to_key (prop e.2 path) = Some k)
                              (map_to_list s)) as Hin.
    { apply list_elem_of_filter. split; [done|]. by apply elem_of_map_to_list. }
    rewrite Hl in Hin. by apply elem_of_nil in Hin.
  - intros Hnone. f_equal. destruct l as [|r l]; [done|]. exfalso.
    assert (r ∈ (filter (fun e => to_key (prop e.2 path) = Some k)
                        (map_to_list s)).*2) as Hin.
    { rewrite <- Hl. left. }
    apply list_elem_of_fmap in Hin as [[pk r'] [-> Hin]].
    apply list_elem_of_filter in Hin as [Hik Hin].
    apply Hnone. exists pk, r'. split; [|done]. by apply elem_of_map_to_list.
Qed.

End ReviewsKey.

(** X7.  With a database handle and an id that is a valid key,
    [fetchReviews(id)] sends no request when some stored review has a
    [restaurant_id] that is the same key as [id] (same type, same value),
    and one request, to the reviews of [id], when none has. *)
Theorem reviews_request_iff_no_review_of_restaurant
    (w : World) (id : JSValue) (k : IDBKey) :
  serviceWorker w = true →
  to_key id = Some k →
  ((∃ pk r, reviewsObject (database w) !! pk = Some r
            ∧ to_key (prop r "restaurant_id") = Some k) →
   requests (read (FetchReviews id) w) = requests w)
  ∧ ((¬ ∃ pk r, reviewsObject (database w) !! pk = Some r
                ∧ to_key (prop r "restaurant_id") = Some k) →
     requests (read (FetchReviews id) w) = requests w ++ [reviews_request id]).
Proof.
  intros H Hk. split.
  - intros Hsome.
    destruct (index_getAll_key "restaurant_id" id k
                (reviewsObject (database w)) Hk) as [l [Hl Hperm]].
    assert (l ≠ []) as Hne.
    { intros ->. apply (index_slice_nil "restaurant_id" id k) in Hl; done. }
    simpl. by rewrite (fetchReviews_hit id l).
  - intros Hnone%(index_slice_nil "restaurant_id" id k); [|done].
    simpl. rewrite fetchReviews_miss by done. simpl.
    by destruct (remote_get (remote w) (reviews_url id)) as [e|ok [e|data]].
Qed.

(** A review of restaurant 1 is cached, its [restaurant_id] a number: the
    reviews of 1 are read from the store, the reviews of "1" are asked from
    the server. *)
Lemma reviews_request_iff_no_review_of_restaurant_witness :
  let w := set_store IDB_REVIEWS_OBJECT {[KeyNumber 1 := steve]}
             (browser true (online [] [steve])) in
  requests (read (FetchReviews (JSNumber 1)) w) = []
  ∧ requests (read (FetchReviews (JSString "1")) w)
    = [reviews_request (JSString "1")].
Proof.
  intros w. split.
  - apply (proj1 (reviews_request_iff_no_review_of_restaurant
                    w (JSNumber 1) (KeyNumber 1) eq_refl eq_refl)).
    exists (KeyNumber 1), steve. split; reflexivity.
  - apply (proj2 (reviews_request_iff_no_review_of_restaurant
                    w (JSString "1") (KeyString "1") eq_refl eq_refl)).
    intros (pk & r & Hr & Hik). subst w. simpl in Hr.
    apply lookup_singleton_Some in Hr as [_ <-]. discriminate.
Defined.

(** ** Saving *)

Section Saving.

Implicit Types (w : World) (r : JSObject) (k : IDBKey) (rs : list JSObject).


Lemma putEach_lookup path rs r k (s : ObjectStore) :
  r ∈ rs →
  to_key (prop r path) = Some k →
  (∀ r', r' ∈ rs → to_key (prop r' path) = Some k → r' = r) →
  putEach path rs s !! k = Some r.
Proof.
  assert (∀ l (s' : ObjectStore),
            (∀ x, x ∈ l → to_key (prop x path) ≠ Some k) →
            putEach path l s' !! k = s' !! k) as Hother.
  { induction l as [|x l IH]; intros s' Hl; simpl; [done|].
    rewrite IH by (intros y Hy; apply Hl; by right).
    unfold store_put. destruct (to_key (prop x path)) as [kx|] eqn:Hx; [|done].
    simpl. apply lookup_insert_ne. intros ->. by apply (Hl x); [left|]. }
  revert s. induction rs as [|x rs IH]; intros s Hin Hk Huniq.
  { by apply elem_of_nil in Hin. }
  simpl. destruct (decide (r ∈ rs)) as [Hrs|Hrs].
  - apply IH; [done|done|]. intros r' Hr'. apply Huniq. by right.
  - apply elem_of_cons in Hin as [->|Hin]; [|done].
    rewrite Hother.
    + unfold store_put. rewrite Hk. simpl. apply lookup_insert_eq.
    + intros y Hy Hyk. apply Hrs. by rewrite <- (Huniq y); [|right|].
Qed.

End Saving.

(** X8.  A review saved with [saveToIDB] can be read back: it is in the
    reviews store under its [id], the other keys and the two other stores
    are as before, and [fetchCachedReviews] lists it for its restaurant. *)
Theorem saved_review_is_read_back (w : World) (r : JSObject) (k ik : IDBKey) :
  serviceWorker w = true →
  to_key (prop r "id") = Some k →
  to_key (prop r "restaurant_id") = Some ik →
  let w' := (DBHelper.saveToIDB (Single r) IDB_REVIEWS_OBJECT w).2 in
  reviewsObject (database w') !! k = Some r
  ∧ (∀ k', k' ≠ k →
           reviewsObject (database w') !! k' = reviewsObject (database w) !! k')
  ∧ restaurantObject (database w') = restaurantObject (database w)
  ∧ reviewsOfflineObject (database w') = reviewsOfflineObject (database w)
  ∧ ∃ l, DBHelper.fetchCachedReviews (prop r "restaurant_id") w'
         = (Normal (Some l), w')
         ∧ r ∈ l.
Proof.
  intros H Hk Hik.
  assert ((DBHelper.saveToIDB (Single r) IDB_REVIEWS_OBJECT w).2
          = set_store IDB_REVIEWS_OBJECT
              (<[k := r]> (reviewsObject (database w))) w) as Hrun.
  { rewrite save_review, H. unfold store_put. by rewrite Hk. }
  cbv zeta. rewrite Hrun.
  set (w' := set_store IDB_REVIEWS_OBJECT _ w).
  assert (reviewsObject (database w')
          = <[k := r]> (reviewsObject (database w))) as Hstore.
  { subst w'. by destruct w as [? ? ? ? ? [] ? ?]. }
  rewrite Hstore. split; [apply lookup_insert_eq|].
  split; [intros k' Hne; by apply lookup_insert_ne|].
  split; [subst w'; by destruct w as [? ? ? ? ? [] ? ?]|].
  split; [subst w'; by destruct w as [? ? ? ? ? [] ? ?]|].
  destruct (index_getAll_key "restaurant_id" (prop r "restaurant_id") ik
              (reviewsObject (database w')) Hik) as [l [Hl Hperm]].
  exists l. split.
  - rewrite fetchCachedReviews_run.
    change (serviceWorker w') with (serviceWorker w). by rewrite H, Hl.
  - rewrite Hperm. apply list_elem_of_fmap. exists (k, r). split; [done|].
    apply list_elem_of_filter. split; [done|].
    apply elem_of_map_to_list. rewrite Hstore. apply lookup_insert_eq.
Qed.

Lemma saved_review_is_read_back_witness :
  let w' := (DBHelper.saveToIDB (Single steve) IDB_REVIEWS_OBJECT
               (browser true unreachable)).2 in
  reviewsObject (database w') !! KeyNumber 1 = Some steve
  ∧ ∃ l, DBHelper.fetchCachedReviews (JSNumber 1) w' = (Normal (Some l), w')
         ∧ steve ∈ l.
Proof.
  destruct (saved_review_is_read_back (browser true unreachable) steve
              (KeyNumber 1) (KeyNumber 1) eq_refl eq_refl eq_refl)
    as (Hlookup & _ & _ & _ & Hlist).
  by split.
Defined.



(** X10.  Restaurants with valid, pairwise different ids, saved with
    [saveToIDB], are each in the restaurants store under its id; a key
    that is the id of none of them holds what it held, and the two reviews
    stores are as before. *)
Theorem saved_restaurants_are_looked_up (w : World) (rs : list JSObject) :
  serviceWorker w = true →
  Forall (fun r => is_Some (to_key (prop r "id"))) rs →
  NoDup ((fun r => prop r "id") <$> rs) →
  let w' := (DBHelper.saveToIDB (Array rs) IDB_OBJECT w).2 in
  (∀ r k, r ∈ rs → to_key (prop r "id") = Some k →
          restaurantObject (database w') !! k = Some r)
  ∧ (∀ k, (∀ r, r ∈ rs → to_key (prop r "id") ≠ Some k) →
          restaurantObject (database w') !! k
          = restaurantObject (database w) !! k)
  ∧ reviewsObject (database w') = reviewsObject (database w)
  ∧ reviewsOfflineObject (database w') = reviewsOfflineObject (database w).
Proof.
  intros H Hvalid Hnodup. simpl. rewrite saveToIDB_restaurants, H.
  assert (restaurantObject
            (database
               (set_store IDB_OBJECT
                  (putMany "id" rs (restaurantObject (database w))) w))
          = putMany "id" rs (restaurantObject (database w))) as ->.
  { by destruct w as [? ? ? ? ? [] ? ?]. }
  pose proof (keyed_NoDup "id" rs Hvalid Hnodup) as Hkeys.
  rewrite putMany_keyed.
  split; [|split; [|by destruct w as [? ? ? ? ? [] ? ?]]].
  - intros r k Hin Hk. apply lookup_union_Some_l.
    apply elem_of_list_to_map_1.
    { by rewrite fmap_reverse, reverse_Permutation. }
    rewrite elem_of_reverse.
    clear Hnodup Hkeys. induction Hvalid as [|x l [kx Hx] _ IH]; simpl.
    { by apply elem_of_nil in Hin. }
    rewrite Hx. apply elem_of_cons in Hin as [->|Hin].
    + rewrite Hk in Hx. injection Hx as ->. left.
    + right. by apply IH.
  - intros k Hk. apply lookup_union_r, not_elem_of_list_to_map_1.
    rewrite fmap_reverse, elem_of_reverse.
    intros Hin. apply list_elem_of_fmap in Hin as [[k' r] [-> Hin]].
    assert (r ∈ rs ∧ to_key (prop r "id") = Some k') as [Hr Hrk]; [|by eapply Hk].
    clear -Hin. induction rs as [|x l IH]; simpl in Hin.
    { by apply elem_of_nil in Hin. }
    destruct (to_key (prop x "id")) as [kx|] eqn:Hx.
    + apply elem_of_cons in Hin as [[= -> ->]|Hin]; [split; [left|done]|].
      destruct (IH Hin). split; [by right | done].
    + by apply elem_of_nil in Hin.
Qed.

Lemma saved_restaurants_are_looked_up_witness :
  let w' := (DBHelper.saveToIDB (Array [emily; mission]) IDB_OBJECT
               (browser true unreachable)).2 in
  restaurantObject (database w') !! KeyNumber 1 = Some mission
  ∧ restaurantObject (database w') !! KeyNumber 7 = None.
Proof.
  destruct (saved_restaurants_are_looked_up (browser true unreachable)
              [emily; mission] eq_refl) as (Hin & Hout & _).
  - repeat constructor; by eexists.
  - apply (bool_decide_unpack _). reflexivity.
  - split.
    + apply Hin; [|reflexivity]. rewrite !elem_of_cons. auto.
    + rewrite Hout; [reflexivity|].
      intros r. rewrite !elem_of_cons, elem_of_nil.
      intros [->|[->|[]]]; discriminate.
Defined.



(** X12.  The reviews that [fetchReviews] fetches are saved one by one: a
    fetched review with a valid id that no other fetched review has is in
    the reviews store afterwards, under that id, whatever the other reviews
    are. *)
Theorem fetched_reviews_are_saved_one_by_one
    (w : World) (id : JSValue) (ok : bool) (data : list JSObject)
    (r : JSObject) (k : IDBKey) :
  serviceWorker w = true →
  index_getAll "restaurant_id" id (reviewsObject (database w)) = inr [] →
  remote_get (remote w) (reviews_url id) = Responds ok (inr data) →
  r ∈ data →
  to_key (prop r "id") = Some k →
  (∀ r', r' ∈ data → to_key (prop r' "id") = Some k → r' = r) →
  reviewsObject (database (read (FetchReviews id) w)) !! k = Some r.
Proof.
  intros H Hmiss Hremote Hin Hk Huniq. unfold read.
  rewrite fetchReviews_miss by done. cbv zeta. rewrite Hremote.
  destruct w as [? ? ? ? ? [] ? ?]. simpl. by apply putEach_lookup.
Qed.

(** A review without id between two reviews: both are saved. *)
Lemma fetched_reviews_are_saved_one_by_one_witness :
  reviewsObject
    (database (read (FetchReviews (JSNumber 1))
                 (browser true (online [] [steve; draft; morgan]))))
  !! KeyNumber 2 = Some morgan.
Proof.
  apply (fetched_reviews_are_saved_one_by_one
           (browser true (online [] [steve; draft; morgan]))
           (JSNumber 1) true [steve; draft; morgan] morgan (KeyNumber 2));
    try reflexivity.
  - rewrite !elem_of_cons. auto.
  - intros r'. rewrite !elem_of_cons, elem_of_nil.
    intros [->|[->|[->|[]]]]; [discriminate|discriminate|done].
Defined.

(** ** Submitting a review when [port] is bound *)

Section AddReviewBound.

Implicit Types (w : World) (data : JSObject) (port : JSValue).

(** The run of [addReview] in a world whose global object binds [port]
    and that has a database handle. *)
Lemma addReview_run data port w :
  globals w !! "port" = Some port →
  serviceWorker w = true →
  DBHelper.addReview data record1 w
  = (Normal tt,
     let w1 := log_request (review_request port data) w in
     match remote_post (remote w) (review_url port) data with
     | NetworkFailure e =>
         set_store IDB_REVIEWS_OBJECT_OFFLINE
           (<[KeyNumber (clock w (ticks w)) :=
                stamped data (clock w (ticks w)) (clock w (S (ticks w)))]>
              (reviewsOfflineObject (database w)))
           (advance_clock (advance_clock w1))
     | Responds ok (inl e) => log_callback (None, None) w1
     | Responds ok (inr created) =>
         set_store IDB_REVIEWS_OBJECT
           (default (reviewsObject (database w))
              (store_put "id" created (reviewsObject (database w))))
           (log_callback (None, None) w1)
     end).
Proof.
  intros Hport H. unfold DBHelper.addReview.
  erewrite then_normal; [|by rewrite identifier_port, Hport].
  fold (review_url port).
  destruct (remote_post (remote w) (review_url port) data)
    as [e|ok [e|created]] eqn:Hpost.
  - erewrite catch_throw;
      [|apply then_throw; unfold fetch_post; by rewrite Hpost].
    unfold then_, getTime, detached. simpl.
    rewrite save_offline. simpl. rewrite H. unfold store_put, stamped.
    unfold prop, set_prop.
    rewrite lookup_insert_ne, lookup_insert_eq by done. simpl.
    by destruct w as [? ? ? ? ? [] ? ?].
  - unfold catch_.
    erewrite then_normal; [|unfold fetch_post; by rewrite Hpost].
    reflexivity.
  - unfold catch_.
    erewrite then_normal; [|unfold fetch_post; by rewrite Hpost].
    unfold with_pending, record1, then_, json, detached. simpl.
    rewrite save_review. simpl. by rewrite H.
Qed.

End AddReviewBound.

(** X13.  When the global object binds [port] and [fetch] rejects,
    [addReview] queues the review: stamped with [updatedAt] and
    [createdAt], its other properties kept, under its [updatedAt] in the
    offline store; the reviews store and the restaurants store are as
    before, one request was sent, and the callback is not called. *)
Theorem review_is_queued_when_fetch_rejects
    (w : World) (data : JSObject) (port : JSValue) (e : JSError) :
  globals w !! "port" = Some port →
  serviceWorker w = true →
  remote_post (remote w) (review_url port) data = NetworkFailure e →
  let w' := (DBHelper.addReview data record1 w).2 in
  ∃ item,
    reviewsOfflineObject (database w')
    = <[KeyNumber (clock w (ticks w)) := item]>
        (reviewsOfflineObject (database w))
    ∧ prop item "updatedAt" = JSNumber (clock w (ticks w))
    ∧ prop item "createdAt" = JSNumber (clock w (S (ticks w)))
    ∧ (∀ p, p ≠ "updatedAt" → p ≠ "createdAt" → prop item p = prop data p)
    ∧ reviewsObject (database w') = reviewsObject (database w)
    ∧ restaurantObject (database w') = restaurantObject (database w)
    ∧ requests w' = requests w ++ [review_request port data]
    ∧ callbacks w' = callbacks w.
Proof.
  intros Hport H Hpost. cbv zeta.
  rewrite (addReview_run data port) by done. rewrite Hpost.
  exists (stamped data (clock w (ticks w)) (clock w (S (ticks w)))).
  repeat split; try by destruct w as [? ? ? ? ? [] ? ?].
  - unfold prop, stamped, set_prop.
    by rewrite lookup_insert_ne, lookup_insert_eq.
  - unfold prop, stamped, set_prop. by rewrite lookup_insert_eq.
  - intros p Hu Hc. unfold prop, stamped, set_prop.
    by rewrite !lookup_insert_ne.
Qed.

Lemma review_is_queued_when_fetch_rejects_witness :
  let w' := (DBHelper.addReview draft record1
               (browser_with_port unreachable (fun n => 1000 + Z.of_nat n))).2
  in
  ∃ item, reviewsOfflineObject (database w') = {[KeyNumber 1000 := item]}
          ∧ prop item "createdAt" = JSNumber 1001
          ∧ prop item "name" = JSString "Jason"
          ∧ callbacks w' = [].
Proof.
  destruct (review_is_queued_when_fetch_rejects
              (browser_with_port unreachable (fun n => 1000 + Z.of_nat n))
              draft (JSNumber 1337) failed_to_fetch eq_refl eq_refl eq_refl)
    as (item & Hstore & _ & Hcreated & Hkept & _ & _ & _ & Hcalls).
  exists item.
  split; [exact Hstore|]. split; [exact Hcreated|]. split; [|exact Hcalls].
  by rewrite Hkept.
Defined.

(** X14.  When the global object binds [port] and the server answers with
    a record, whatever the status of the response, [addReview] calls the
    callback once, with no error, and puts the record into the reviews
    store under the id the server gave it; the offline store is as before.
    A record without a valid id is not stored at all. *)
Theorem review_is_stored_when_server_answers
    (w : World) (data created : JSObject) (port : JSValue) (ok : bool) :
  globals w !! "port" = Some port →
  serviceWorker w = true →
  remote_post (remote w) (review_url port) data = Responds ok (inr created) →
  let w' := (DBHelper.addReview data record1 w).2 in
  reviewsObject (database w')
  = match to_key (prop created "id") with
    | Some k => <[k := created]> (reviewsObject (database w))
    | None => reviewsObject (database w)
    end
  ∧ reviewsOfflineObject (database w') = reviewsOfflineObject (database w)
  ∧ requests w' = requests w ++ [review_request port data]
  ∧ callbacks w' = callbacks w ++ [(None, None)].
Proof.
  intros Hport H Hpost. cbv zeta.
  rewrite (addReview_run data port) by done. rewrite Hpost.
  unfold store_put.
  destruct (to_key (prop created "id"));
    by destruct w as [? ? ? ? ? [] ? ?].
Qed.

Lemma review_is_stored_when_server_answers_witness :
  let w' := (DBHelper.addReview draft record1
               (browser_with_port (online [] []) (fun n => 0))).2 in
  reviewsObject (database w')
  = {[KeyNumber 31 := set_prop draft "id" (JSNumber 31)]}
  ∧ callbacks w' = [(None, None)].
Proof.
  destruct (review_is_stored_when_server_answers
              (browser_with_port (online [] []) (fun n => 0))
              draft (set_prop draft "id" (JSNumber 31)) (JSNumber 1337) true
              eq_refl eq_refl eq_refl)
    as (Hstore & _ & _ & Hcalls).
  split; [exact Hstore | exact Hcalls].
Defined.

(** X15.  When the global object binds [port] and the server answers with
    a body that is not JSON, [addReview] calls the callback with no error
    and stores the review nowhere: neither in the reviews store nor in the
    offline store. *)
Theorem review_is_lost_when_body_is_not_json
    (w : World) (data : JSObject) (port : JSValue) (ok : bool) (e : JSError) :
  globals w !! "port" = Some port →
  serviceWorker w = true →
  remote_post (remote w) (review_url port) data = Responds ok (inl e) →
  let w' := (DBHelper.addReview data record1 w).2 in
  database w' = database w
  ∧ callbacks w' = callbacks w ++ [(None, None)].
Proof.
  intros Hport H Hpost. cbv zeta.
  rewrite (addReview_run data port) by done. by rewrite Hpost.
Qed.

Lemma review_is_lost_when_body_is_not_json_witness :
  let api := mkRemote (fun url => NetworkFailure failed_to_fetch)
               (fun url body =>
                  Responds false (inl (SyntaxError "Unexpected token <"))) in
  let w' := (DBHelper.addReview draft record1
               (browser_with_port api (fun n => 0))).2 in
  database w' = empty_database ∧ callbacks w' = [(None, None)].
Proof.
  intros api.
  exact (review_is_lost_when_body_is_not_json
           (browser_with_port api (fun n => 0)) draft (JSNumber 1337) false
           (SyntaxError "Unexpected token <") eq_refl eq_refl eq_refl).
Defined.

(** X16.  The queued reviews are keyed by [updatedAt]: when the global
    object binds [port], two reviews submitted with no connection whose
    first clock readings are the same leave one entry in the offline
    store, the second review; the first one is gone. *)
Theorem queued_reviews_with_one_timestamp_collide
    (w : World) (first second : JSObject) (port : JSValue) (e1 e2 : JSError) :
  globals w !! "port" = Some port →
  serviceWorker w = true →
  remote_post (remote w) (review_url port) first = NetworkFailure e1 →
  remote_post (remote w) (review_url port) second = NetworkFailure e2 →
  clock w (S (S (ticks w))) = clock w (ticks w) →
  let w1 := (DBHelper.addReview first record1 w).2 in
  let w2 := (DBHelper.addReview second record1 w1).2 in
  reviewsOfflineObject (database w2)
  = <[KeyNumber (clock w (ticks w)) :=
        stamped second (clock w (ticks w)) (clock w (S (S (S (ticks w)))))]>
      (reviewsOfflineObject (database w)).
Proof.
  intros Hport H Hfirst Hsecond Hclock. cbv zeta.
  rewrite (addReview_run first port w) by done. rewrite Hfirst.
  set (w1 := (_, _).2).
  assert (globals w1 !! "port" = Some port) as Hport1.
  { subst w1. by destruct w as [? ? ? ? ? [] ? ?]. }
  assert (serviceWorker w1 = true) as H1.
  { subst w1. by destruct w as [? ? ? ? ? [] ? ?]. }
  rewrite (addReview_run second port w1) by done.
  assert (remote w1 = remote w) as Hremote.
  { subst w1. by destruct w as [? ? ? ? ? [] ? ?]. }
  rewrite Hremote, Hsecond.
  subst w1. destruct w as [? ? ? ? ? [] ? ?]. simpl in *.
  rewrite Hclock. apply insert_insert_eq.
Qed.

(** A clock that stands still. *)
Lemma queued_reviews_with_one_timestamp_collide_witness :
  let w := browser_with_port unreachable (fun n => 1000) in
  let w1 := (DBHelper.addReview draft record1 w).2 in
  let w2 := (DBHelper.addReview (set_prop draft "name" (JSString "Ann"))
               record1 w1).2 in
  size (reviewsOfflineObject (database w2)) = 1%nat
  ∧ ∃ item, reviewsOfflineObject (database w2) !! KeyNumber 1000 = Some item
            ∧ prop item "name" = JSString "Ann".
Proof.
  intros w.
  pose proof (queued_reviews_with_one_timestamp_collide w draft
                (set_prop draft "name" (JSString "Ann")) (JSNumber 1337)
                failed_to_fetch failed_to_fetch
                eq_refl eq_refl eq_refl eq_refl eq_refl) as Hstore.
  cbv zeta in *. rewrite Hstore. split; [reflexivity|].
  eexists. split; [apply lookup_insert_eq | reflexivity].
Defined.

(** ** Numbers written out and read back *)

Section Decimal.

Implicit Types (x d : N) (cs ds rest : list ascii) (c : ascii).

Lemma digit_cases d :
  (d < 10)%N →
  d = 0%N ∨ d = 1%N ∨ d = 2%N ∨ d = 3%N ∨ d = 4%N ∨ d = 5%N ∨ d = 6%N
  ∨ d = 7%N ∨ d = 8%N ∨ d = 9%N.
Proof. lia. Qed.

Lemma digit_value_pretty d :
  (d < 10)%N → digit_value (pretty_N_char d) = Some (Z.of_N d).
Proof.
  intros Hd. destruct (digit_cases d Hd) as [->|[->|[->|[->|[->|[->|[->|[->|[->| ->]]]]]]]]];
    reflexivity.
Qed.

Lemma is_whitespace_pretty d : is_whitespace (pretty_N_char d) = false.
Proof. unfold pretty_N_char. by repeat case_match. Qed.

Lemma trim_no_whitespace cs :
  Forall (fun c => is_whitespace c = false) cs → trim cs = cs.
Proof.
  intros Hcs. unfold trim.
  assert (∀ l, Forall (fun c => is_whitespace c = false) l →
               drop_whitespace l = l) as Hdrop.
  { intros l Hl. destruct Hl as [|c l Hc _]; simpl; [done|]. by rewrite Hc. }
  rewrite (Hdrop cs) by done. rewrite Hdrop.
  - apply reverse_involutive.
  - by apply Forall_reverse.
Qed.

(** [pretty_N_go x s] puts the decimal digits of [x] in front of [s]. *)
Lemma pretty_N_go_digits x (s : string) :
  ∃ ds, list_ascii_of_string (pretty_N_go x s) = ds ++ list_ascii_of_string s
        ∧ Forall decimal_digit ds
        ∧ ((0 < x)%N → ds ≠ [])
        ∧ ∀ acc rest,
            digits_value acc (ds ++ rest)
            = digits_value
                (acc * 10 ^ Z.of_nat (length ds) + Z.of_N x) rest.
Proof.
  revert s. induction (N.lt_wf_0 x) as [x _ IH]; intros s.
  destruct (decide (x = 0%N)) as [->|Hx].
  - exists []. rewrite pretty_N_go_0. repeat split; [constructor|lia|].
    intros acc rest. simpl. f_equal. lia.
  - rewrite pretty_N_go_step by lia.
    destruct (IH (x `div` 10)%N
                (N.div_lt x 10 ltac:(lia) ltac:(lia))
                (String (pretty_N_char (x `mod` 10)) s))
      as (ds & Hds & Hdigits & _ & Hvalue).
    exists (ds ++ [pretty_N_char (x `mod` 10)%N]). split; [|split; [|split]].
    + rewrite Hds. simpl. by rewrite <- (assoc_L (++)).
    + apply Forall_app. split; [done|]. constructor; [|constructor].
      exists (x `mod` 10)%N. split; [|done]. by apply N.mod_lt.
    + intros _. by destruct ds.
    + intros acc rest. rewrite <- (assoc_L (++)). simpl.
      rewrite Hvalue. simpl.
      rewrite digit_value_pretty by (by apply N.mod_lt).
      f_equal. rewrite length_app. simpl.
      rewrite Nat2Z.inj_add, Z.pow_add_r by lia.
      pose proof (N.div_mod x 10 ltac:(lia)) as Hdm.
      assert (Z.of_N x = 10 * Z.of_N (x `div` 10) + Z.of_N (x `mod` 10)) by lia.
      change (Z.of_nat 1) with 1. lia.
Qed.

Lemma StringToNumber_digits (s : string) c rest :
  list_ascii_of_string s = c :: rest →
  Forall decimal_digit (c :: rest) →
  StringToNumber s = digits_value 0 (c :: rest).
Proof.
  intros Hs Hdigits. unfold StringToNumber.
  rewrite Hs, trim_no_whitespace.
  - apply Forall_cons in Hdigits as [(d & Hd & ->) _].
    destruct (digit_cases d Hd) as [->|[->|[->|[->|[->|[->|[->|[->|[->| ->]]]]]]]]];
      reflexivity.
  - eapply Forall_impl; [exact Hdigits|].
    intros c' (d & _ & ->). apply is_whitespace_pretty.
Qed.

Lemma StringToNumber_minus_digits (s : string) c rest :
  list_ascii_of_string s = "-"%char :: c :: rest →
  Forall decimal_digit (c :: rest) →
  StringToNumber s = Z.opp <$> digits_value 0 (c :: rest).
Proof.
  intros Hs Hdigits. unfold StringToNumber.
  rewrite Hs, trim_no_whitespace; [done|].
  constructor; [done|].
  eapply Forall_impl; [exact Hdigits|].
  intros c' (d & _ & ->). apply is_whitespace_pretty.
Qed.

Lemma StringToNumber_pretty_positive (p : positive) :
  ∃ c rest, list_ascii_of_string (pretty (N.pos p)) = c :: rest
            ∧ Forall decimal_digit (c :: rest)
            ∧ digits_value 0 (c :: rest) = Some (Z.pos p).
Proof.
  unfold pretty, pretty_N. rewrite decide_False by done.
  destruct (pretty_N_go_digits (N.pos p) "") as (ds & Hds & Hdigits & Hne & Hv).
  simpl in Hds. rewrite app_nil_r in Hds.
  destruct ds as [|c rest]; [by destruct Hne|].
  exists c, rest. split; [done|]. split; [done|].
  specialize (Hv 0 []). rewrite app_nil_r in Hv. rewrite Hv. simpl.
  f_equal.
Qed.

(** A number written out by a template literal converts back to itself. *)
Lemma StringToNumber_ToString (n : Z) :
  StringToNumber (ToString (JSNumber n)) = Some n.
Proof.
  destruct n as [|p|p]; simpl.
  - reflexivity.
  - destruct (StringToNumber_pretty_positive p) as (c & rest & Hs & Hd & Hv).
    change (pretty (Z.pos p)) with (pretty (N.pos p)).
    by rewrite (StringToNumber_digits _ c rest).
  - destruct (StringToNumber_pretty_positive p) as (c & rest & Hs & Hd & Hv).
    change (pretty (Z.neg p)) with ("-" +:+ pretty (N.pos p)).
    rewrite (StringToNumber_minus_digits _ c rest); [by rewrite Hv| |done].
    change ("-" +:+ pretty (N.pos p)) with (String "-"%char (pretty (N.pos p))).
    change (list_ascii_of_string (String "-"%char (pretty (N.pos p))))
      with ("-"%char :: list_ascii_of_string (pretty (N.pos p))).
    by rewrite Hs.
Qed.

End Decimal.

(** ** Links and images *)

Section Urls.

Implicit Types (w : World) (rs : list JSObject) (r : JSObject) (id : JSValue).

Lemma loose_eq_number_unique (m1 m2 : Z) id :
  loose_eq (JSNumber m1) id = true → loose_eq (JSNumber m2) id = true →
  m1 = m2.
Proof.
  destruct id as [| |b|n|s]; simpl; try done.
  - intros <-%bool_decide_eq_true <-%bool_decide_eq_true. done.
  - intros <-%bool_decide_eq_true <-%bool_decide_eq_true. done.
  - destruct (StringToNumber s); simpl; [|done].
    intros ->%bool_decide_eq_true ->%bool_decide_eq_true. done.
Qed.

(** Among records with pairwise different numbers for ids, at most one
    has an id [==] to a given value. *)
Lemma numeric_ids_one_match rs id x y :
  numeric_ids rs → NoDup (field_values "id" rs) →
  x ∈ rs → y ∈ rs →
  loose_eq (prop x "id") id = true → loose_eq (prop y "id") id = true →
  x = y.
Proof.
  intros Hnum Hnodup Hx Hy Hxid Hyid.
  unfold numeric_ids in Hnum. rewrite Forall_forall in Hnum.
  destruct (Hnum x Hx) as [m1 H1], (Hnum y Hy) as [m2 H2].
  rewrite H1 in Hxid. rewrite H2 in Hyid.
  pose proof (loose_eq_number_unique m1 m2 id Hxid Hyid) as ->.
  apply list_elem_of_lookup in Hx as [i Hi].
  apply list_elem_of_lookup in Hy as [j Hj].
  assert (i = j) as ->; [|congruence].
  apply (NoDup_lookup (field_values "id" rs) i j (JSNumber m2)); [done| |];
    unfold field_values; rewrite list_lookup_fmap.
  - by rewrite Hi; simpl; rewrite H1.
  - by rewrite Hj; simpl; rewrite H2.
Qed.

Lemma find_the_one {A} (f : A → bool) (l : list A) (x : A) :
  x ∈ l → f x = true →
  (∀ y, y ∈ l → f y = true → y = x) →
  List.find f l = Some x.
Proof.
  intros Hin Hx Hone.
  destruct (find_somewhere f l x Hin Hx) as (y & Hfind & Hy & Hfy).
  by rewrite Hfind, (Hone y Hy Hfy).
Qed.

Lemma append_inv_tail (s1 s2 t : string) : s1 +:+ t = s2 +:+ t → s1 = s2.
Proof.
  assert (∀ a b : string, list_ascii_of_string (a +:+ b)
                          = list_ascii_of_string a ++ list_ascii_of_string b)
    as Happ.
  { induction a as [|c a IH]; intros b; [done|].
    change (String c a +:+ b) with (String c (a +:+ b)). simpl.
    by rewrite IH. }
  intros Heq%(f_equal list_ascii_of_string).
  rewrite !Happ in Heq. apply app_inv_tail in Heq.
  apply (f_equal string_of_list_ascii) in Heq.
  by rewrite !string_of_list_ascii_of_string in Heq.
Qed.

End Urls.

(** X17.  The link of a restaurant leads back to it: when
    [fetchRestaurants] answers with restaurants whose ids are pairwise
    different numbers, [fetchRestaurantById] called with the text that
    [urlForRestaurant] puts after [id=] answers with that restaurant. *)
Theorem restaurant_link_finds_the_restaurant
    (w : World) (rs : list JSObject) (r : JSObject) (s : string) :
  answers FetchRestaurants w (None, Some (DataRecords rs)) →
  numeric_ids rs →
  NoDup (field_values "id" rs) →
  r ∈ rs →
  DBHelper.urlForRestaurant r = "./restaurant.html?id=" +:+ s →
  answers (FetchRestaurantById (JSString s)) w (None, Some (DataRecord r)).
Proof.
  intros Hrs Hnum Hnodup Hin Hurl.
  apply (inj (String.app "./restaurant.html?id=")) in Hurl. subst s.
  pose proof Hnum as Hnum'. unfold numeric_ids in Hnum'.
  rewrite Forall_forall in Hnum'. destruct (Hnum' r Hin) as [n Hn].
  assert (loose_eq (prop r "id") (JSString (ToString (prop r "id"))) = true)
    as Hr.
  { rewrite Hn. unfold loose_eq. cbn [ToNumber].
    rewrite StringToNumber_ToString. simpl. by apply bool_decide_eq_true. }
  pose proof (fetchRestaurantById_answers w rs
                (JSString (ToString (prop r "id"))) Hrs) as Hanswer.
  rewrite (find_the_one _ rs r) in Hanswer; [done|done|done|].
  intros y Hy Hfy.
  by apply (numeric_ids_one_match rs
              (JSString (ToString (prop r "id"))) y r).
Qed.

Lemma restaurant_link_finds_the_restaurant_witness :
  DBHelper.urlForRestaurant kang_ho = "./restaurant.html?id=3"
  ∧ answers (FetchRestaurantById (JSString "3"))
      (browser true (online [mission; emily; kang_ho] []))
      (None, Some (DataRecord kang_ho)).
Proof.
  split; [reflexivity|].
  apply (restaurant_link_finds_the_restaurant
           (browser true (online [mission; emily; kang_ho] []))
           [mission; emily; kang_ho] kang_ho "3").
  - reflexivity.
  - repeat constructor; by eexists.
  - apply (bool_decide_unpack _). reflexivity.
  - rewrite !elem_of_cons. auto.
  - reflexivity.
Defined.

(** X18.  [imageUrlForRestaurant] answers with the placeholder exactly
    when the restaurant has no photograph ([undefined], [null], [false],
    [0] or the empty string); and two restaurants with photographs have
    the same image only if their photographs are written the same. *)
Theorem image_url_of_a_restaurant (r1 r2 : JSObject) :
  (DBHelper.imageUrlForRestaurant r1 = placeholder
   ↔ ToBoolean (prop r1 "photograph") = false)
  ∧ (ToBoolean (prop r1 "photograph") = true →
     ToBoolean (prop r2 "photograph") = true →
     DBHelper.imageUrlForRestaurant r1 = DBHelper.imageUrlForRestaurant r2 →
     ToString (prop r1 "photograph") = ToString (prop r2 "photograph")).
Proof.
  unfold DBHelper.imageUrlForRestaurant. split.
  - destruct (ToBoolean (prop r1 "photograph")); split; done.
  - intros -> -> Heq.
    apply (inj (String.app "/img/")) in Heq.
    by apply append_inv_tail in Heq.
Qed.

Lemma image_url_of_a_restaurant_witness :
  DBHelper.imageUrlForRestaurant
    (set_prop mission "photograph" (JSNumber 1)) = "/img/1.webp"
  ∧ DBHelper.imageUrlForRestaurant mission = placeholder
  ∧ DBHelper.imageUrlForRestaurant
      (set_prop mission "photograph" (JSNumber 0)) = placeholder.
Proof.
  split; [reflexivity|]. split.
  - by apply (proj1 (image_url_of_a_restaurant mission mission)).
  - by apply (proj1 (image_url_of_a_restaurant
                       (set_prop mission "photograph" (JSNumber 0)) mission)).
Defined.

(** ** More on the queries *)

Section Queries.

Implicit Types (w : World) (rs : list JSObject) (r : JSObject).

Lemma filter_sublist {A} (f : A → bool) (l : list A) :
  List.filter f l `sublist_of` l.
Proof.
  induction l as [|x l IH]; simpl; [done|].
  destruct (f x); [by apply sublist_skip | by apply sublist_cons].
Qed.

Lemma elem_of_filter_bool {A} (f : A → bool) (l : list A) (x : A) :
  x ∈ List.filter f l ↔ x ∈ l ∧ f x = true.
Proof. rewrite !list_elem_of_In. apply List.filter_In. Qed.

Lemma find_Permutation {A} (f : A → bool) (l l' : list A) :
  l ≡ₚ l' →
  (∀ x y, x ∈ l → y ∈ l → f x = true → f y = true → x = y) →
  List.find f l = List.find f l'.
Proof.
  intros Hperm Hone. destruct (List.find f l) as [x|] eqn:Hfind.
  - apply List.find_some in Hfind as [Hin%list_elem_of_In Hx].
    symmetry. apply find_the_one; [by rewrite <- Hperm | done |].
    intros y Hy Hfy. apply Hone; [by rewrite Hperm | done..].
  - symmetry. apply find_nowhere, Forall_forall. intros y Hy.
    rewrite <- Hperm in Hy. apply list_elem_of_In in Hy.
    by apply (List.find_none f l Hfind).
Qed.

Lemma fetchRestaurantById_run id w rs w' :
  cached_or_remote w = (Normal rs, w') →
  DBHelper.fetchRestaurantById id (record DataRecord) w
  = (Normal tt,
     log_callback
       match List.find (fun r => loose_eq (prop r "id") id) rs with
       | Some restaurant => (None, Some (DataRecord restaurant))
       | None => (Some (ErrorMessage "Restaurant does not exist"), None)
       end w').
Proof.
  intros Hrun. unfold DBHelper.fetchRestaurantById.
  rewrite fetchRestaurants_unfold, Hrun.
  cbv beta iota zeta delta [truthy array_of then_ resolve record catch_].
  by destruct (List.find _ rs).
Qed.

End Queries.

(** X19.  When [fetchRestaurants] answers with the restaurants [rs], the
    query by cuisine and neighborhood answers with the restaurants of [rs],
    in their order, that pass both tests, where the test of an argument
    that is ["all"] lets every restaurant pass: no restaurant that passes
    is left out and none that fails is let in. *)
Theorem two_field_query_selects
    (w : World) (rs : list JSObject) (cuisine neighborhood : JSValue) :
  answers FetchRestaurants w (None, Some (DataRecords rs)) →
  ∃ l, answers (FetchRestaurantByCuisineAndNeighborhood cuisine neighborhood)
         w (None, Some (DataRecords l))
       ∧ l `sublist_of` rs
       ∧ ∀ r, r ∈ l
              ↔ r ∈ rs
                ∧ (cuisine = JSString "all"
                   ∨ loose_eq (prop r "cuisine_type") cuisine = true)
                ∧ (neighborhood = JSString "all"
                   ∨ loose_eq (prop r "neighborhood") neighborhood = true).
Proof.
  intros Hrs.
  set (by_cuisine := fun l : list JSObject =>
         if loose_neq cuisine (JSString "all")
         then List.filter (fun r => loose_eq (prop r "cuisine_type") cuisine) l
         else l).
  set (by_neighborhood := fun l : list JSObject =>
         if loose_neq neighborhood (JSString "all")
         then List.filter
                (fun r => loose_eq (prop r "neighborhood") neighborhood) l
         else l).
  exists (by_neighborhood (by_cuisine rs)). split; [|split].
  - by apply (query_answers _ w rs).
  - trans (by_cuisine rs).
    + subst by_neighborhood. simpl.
      destruct (loose_neq neighborhood _); [apply filter_sublist | done].
    + subst by_cuisine. simpl.
      destruct (loose_neq cuisine _); [apply filter_sublist | done].
  - intros r. subst by_neighborhood by_cuisine. simpl.
    unfold loose_neq.
    destruct (loose_eq cuisine (JSString "all")) eqn:Hc,
             (loose_eq neighborhood (JSString "all")) eqn:Hn; simpl;
      rewrite ?elem_of_filter_bool;
      try apply loose_eq_all in Hc; try apply loose_eq_all in Hn;
      subst.
    + tauto.
    + assert (neighborhood ≠ JSString "all").
      { intros ->. by rewrite (proj2 (loose_eq_all _) eq_refl) in Hn. }
      tauto.
    + assert (cuisine ≠ JSString "all").
      { intros ->. by rewrite (proj2 (loose_eq_all _) eq_refl) in Hc. }
      tauto.
    + assert (neighborhood ≠ JSString "all").
      { intros ->. by rewrite (proj2 (loose_eq_all _) eq_refl) in Hn. }
      assert (cuisine ≠ JSString "all").
      { intros ->. by rewrite (proj2 (loose_eq_all _) eq_refl) in Hc. }
      tauto.
Qed.

Lemma two_field_query_selects_witness :
  ∃ l, answers (FetchRestaurantByCuisineAndNeighborhood
                  (JSString "Asian") (JSString "Manhattan"))
         (browser true (online [mission; emily; kang_ho] []))
         (None, Some (DataRecords l))
       ∧ (emily ∈ l → False) ∧ kang_ho ∈ l.
Proof.
  destruct (two_field_query_selects
              (browser true (online [mission; emily; kang_ho] []))
              [mission; emily; kang_ho] (JSString "Asian")
              (JSString "Manhattan") eq_refl) as (l & Hanswer & _ & Hl).
  exists l. split; [exact Hanswer|]. split.
  - intros (_ & [?|?] & _)%Hl; discriminate.
  - apply Hl. split; [rewrite !elem_of_cons; auto|].
    split; right; reflexivity.
Defined.

(** X20.  When [fetchRestaurants] answers with an error, every query
    answers with that error and no data. *)
Theorem queries_hand_on_the_error
    (op : ReadOperation) (w : World) (error : CbError) :
  is_query op = true →
  answers FetchRestaurants w (Some error, None) →
  answers op w (Some error, None).
Proof.
  intros Hop Herror.
  destruct op; try discriminate; try done;
    by apply (query_fails _ w error (fun e => (Some e, None))).
Qed.

Lemma queries_hand_on_the_error_witness :
  answers FetchCuisines (browser true unreachable)
    (Some (ErrorObject failed_to_fetch), None).
Proof.
  by apply queries_hand_on_the_error.
Defined.

(** X21.  A restaurant looked up by id on a first visit and again: when
    the server answers the first lookup with restaurants whose ids are
    pairwise different numbers, the second lookup gets the same answer
    from the store, although the store lists the restaurants in another
    order, and sends no request. *)
Theorem lookup_twice_same_answer
    (w : World) (ok : bool) (rs : list JSObject) (id : JSValue) :
  serviceWorker w = true →
  restaurantObject (database w) = ∅ →
  remote_get (remote w) restaurants_url = Responds ok (inr rs) →
  rs ≠ [] →
  numeric_ids rs →
  NoDup (field_values "id" rs) →
  let w1 := read (FetchRestaurantById id) w in
  let w2 := read (FetchRestaurantById id) w1 in
  ∃ call, callbacks w1 = callbacks w ++ [call]
          ∧ callbacks w2 = callbacks w1 ++ [call]
          ∧ requests w2 = requests w1.
Proof.
  intros H Hempty Hremote Hne Hnum Hnodup.
  assert (Forall (fun r => is_Some (to_key (prop r "id"))) rs) as Hvalid.
  { eapply Forall_impl; [exact Hnum|]. intros r [m ->]. by eexists. }
  cbv zeta. unfold read.
  erewrite (fetchRestaurantById_run id w rs);
    [|by rewrite cached_or_remote_miss, Hremote].
  set (call := match List.find _ rs with
               | Some restaurant => (None, Some (DataRecord restaurant))
               | None => _
               end).
  set (w1 := (_, _).2).
  assert (serviceWorker w1 = true) as H1.
  { subst w1. by destruct w as [? ? ? ? ? [] ? ?]. }
  assert (restaurantObject (database w1) = putMany "id" rs ∅) as Hstore.
  { subst w1. by destruct w as [? ? ? ? ? [] ? ?]. }
  erewrite (fetchRestaurantById_run id w1 (store_getAll (putMany "id" rs ∅)));
    [|rewrite cached_or_remote_hit, Hstore; [done|done|];
      destruct rs as [|r rs']; [done|];
      apply putMany_nonempty; by inversion Hvalid].
  rewrite <- (find_Permutation _ rs).
  - exists call. subst w1. by destruct w as [? ? ? ? ? [] ? ?].
  - symmetry. by apply putMany_getAll.
  - intros x y Hx Hy Hfx Hfy. by apply (numeric_ids_one_match rs id x y).
Qed.

(** The server lists restaurant 2 before restaurant 1, the store after. *)
Lemma lookup_twice_same_answer_witness :
  let w := browser true (online [emily; mission] []) in
  let w1 := read (FetchRestaurantById (JSString "1")) w in
  let w2 := read (FetchRestaurantById (JSString "1")) w1 in
  callbacks w2
  = [(None, Some (DataRecord mission)); (None, Some (DataRecord mission))]
  ∧ requests w2 = [restaurants_request].
Proof.
  intros w.
  destruct (lookup_twice_same_answer w true [emily; mission] (JSString "1")
              eq_refl eq_refl eq_refl) as (call & Hcall1 & Hcall2 & Hreq).
  - done.
  - repeat constructor; by eexists.
  - apply (bool_decide_unpack _). reflexivity.
  - cbv zeta in *.
    assert (callbacks (read (FetchRestaurantById (JSString "1")) w)
            = [(None, Some (DataRecord mission))]) as Hfirst by reflexivity.
    rewrite Hfirst in Hcall1, Hcall2.
    injection Hcall1 as <-.
    rewrite Hreq, Hcall2. split; reflexivity.
Defined.

(** X22.  A callback that throws when it is handed the restaurants is
    called a second time, with what it threw as the error: once with the
    data, once with the error. *)
Theorem throwing_callback_is_called_twice
    (w : World) (rs : list JSObject) (e : JSError) :
  answers FetchRestaurants w (None, Some (DataRecords rs)) →
  callbacks (DBHelper.fetchRestaurants (record_and_throw e) w).2
  = callbacks w ++ [(None, Some (DataRecords rs));
                    (Some (ErrorObject e), None)].
Proof.
  intros (w' & Hrun & Hframe)%answers_data.
  rewrite fetchRestaurants_unfold, Hrun. simpl.
  by rewrite Hframe, <- (assoc_L (++)).
Qed.

Lemma throwing_callback_is_called_twice_witness :
  callbacks (DBHelper.fetchRestaurants
               (record_and_throw (TypeError "el is null"))
               (browser true (online [emily] []))).2
  = [(None, Some (DataRecords [emily]));
     (Some (ErrorObject (TypeError "el is null")), None)].
Proof.
  exact (throwing_callback_is_called_twice
           (browser true (online [emily] [])) [emily]
           (TypeError "el is null") eq_refl).
Defined.

(** ** The facets on a first visit and after *)

Section Facets.

Implicit Types (l : list JSValue) (rs : list JSObject) (w : World).

Lemma distinctValuesOf_Permutation l l' :
  l ≡ₚ l' → distinctValuesOf l ≡ₚ distinctValuesOf l'.
Proof.
  intros Hperm. apply NoDup_Permutation.
  - apply distinctValuesOf_from_NoDup.
  - apply distinctValuesOf_from_NoDup.
  - intros v. unfold distinctValuesOf.
    rewrite !distinctValuesOf_from_elem. by rewrite Hperm.
Qed.

Lemma fetchNeighborhoods_run w rs w' :
  cached_or_remote w = (Normal rs, w') →
  DBHelper.fetchNeighborhoods (record DataValues) w
  = (Normal tt,
     log_callback
       (None,
        Some (DataValues (distinctValuesOf (field_values "neighborhood" rs))))
       w').
Proof.
  intros Hrun. unfold DBHelper.fetchNeighborhoods.
  rewrite fetchRestaurants_unfold, Hrun.
  cbv beta iota zeta delta [truthy array_of then_ resolve record catch_].
  rewrite imap_element. fold (unique (field_values "neighborhood" rs)).
  by rewrite unique_distinctValuesOf.
Qed.

End Facets.

(** X23.  The neighborhoods on a first visit and on the next: when the
    server answers the first call with restaurants that have valid,
    pairwise different ids, the second call answers from the store, with
    the same neighborhoods, possibly in another order (the store lists the
    restaurants by id), in the same order when the ids ascend; it sends no
    request. *)
Theorem neighborhoods_on_the_next_visit
    (w : World) (ok : bool) (rs : list JSObject) :
  serviceWorker w = true →
  restaurantObject (database w) = ∅ →
  remote_get (remote w) restaurants_url = Responds ok (inr rs) →
  rs ≠ [] →
  Forall (fun r => is_Some (to_key (prop r "id"))) rs →
  NoDup ((fun r => prop r "id") <$> rs) →
  let w1 := read FetchNeighborhoods w in
  let w2 := read FetchNeighborhoods w1 in
  ∃ first second,
    callbacks w1 = callbacks w ++ [(None, Some (DataValues first))]
    ∧ callbacks w2 = callbacks w1 ++ [(None, Some (DataValues second))]
    ∧ first = distinctValuesOf (field_values "neighborhood" rs)
    ∧ first ≡ₚ second
    ∧ (ascending "id" rs → first = second)
    ∧ requests w2 = requests w1.
Proof.
  intros H Hempty Hremote Hne Hvalid Hnodup.
  cbv zeta. unfold read.
  erewrite (fetchNeighborhoods_run w rs);
    [|by rewrite cached_or_remote_miss, Hremote].
  set (w1 := (_, _).2).
  assert (serviceWorker w1 = true) as H1.
  { subst w1. by destruct w as [? ? ? ? ? [] ? ?]. }
  assert (restaurantObject (database w1) = putMany "id" rs ∅) as Hstore.
  { subst w1. by destruct w as [? ? ? ? ? [] ? ?]. }
  erewrite (fetchNeighborhoods_run w1 (store_getAll (putMany "id" rs ∅)));
    [|rewrite cached_or_remote_hit, Hstore; [done|done|];
      destruct rs as [|r rs']; [done|];
      apply putMany_nonempty; by inversion Hvalid].
  eexists _, _. split; [|split; [reflexivity|]].
  { subst w1. by destruct w as [? ? ? ? ? [] ? ?]. }
  split; [done|]. split; [|split; [|done]].
  - apply distinctValuesOf_Permutation. unfold field_values.
    apply fmap_Permutation. symmetry. by apply putMany_getAll.
  - intros Hasc. by rewrite putMany_getAll_ascending.
Qed.

(** The server lists Brooklyn's restaurant 2 before Manhattan's
    restaurant 1; the store lists restaurant 1 first. *)
Lemma neighborhoods_on_the_next_visit_witness :
  let w := browser true (online [emily; mission] []) in
  callbacks (read FetchNeighborhoods (read FetchNeighborhoods w))
  = [(None, Some (DataValues [JSString "Brooklyn"; JSString "Manhattan"]));
     (None, Some (DataValues [JSString "Manhattan"; JSString "Brooklyn"]))]
  ∧ ∃ first second,
      callbacks (read FetchNeighborhoods (read FetchNeighborhoods w))
      = [(None, Some (DataValues first)); (None, Some (DataValues second))]
      ∧ first ≡ₚ second.
Proof.
  intros w. split; [reflexivity|].
  destruct (neighborhoods_on_the_next_visit w true [emily; mission]
              eq_refl eq_refl eq_refl)
    as (first & second & Hcall1 & Hcall2 & _ & Hperm & _ & _).
  - done.
  - repeat constructor; by eexists.
  - apply (bool_decide_unpack _). reflexivity.
  - exists first, second. split; [|exact Hperm].
    cbv zeta in *. rewrite Hcall2, Hcall1. reflexivity.
Defined.

(** ** Reviews asked for without an id *)

(** X24.  [fetchReviews] called with [undefined] or [null] while reviews
    with a [restaurant_id] are stored answers with all of them, of every
    restaurant, and sends no request. *)
Theorem reviews_of_no_restaurant (w : World) (id : JSValue) :
  serviceWorker w = true →
  id = JSUndefined ∨ id = JSNull →
  (∃ pk r, reviewsObject (database w) !! pk = Some r
           ∧ is_Some (to_key (prop r "restaurant_id"))) →
  ∃ l, answers (FetchReviews id) w (None, Some (DataRecords l))
       ∧ (∀ r, r ∈ l
               ↔ ∃ pk, reviewsObject (database w) !! pk = Some r
                       ∧ is_Some (to_key (prop r "restaurant_id")))
       ∧ requests (read (FetchReviews id) w) = requests w.
Proof.
  intros H Hid (pk0 & r0 & Hr0 & Hik0).
  set (l := (index_entries "restaurant_id"
               (reviewsObject (database w))).*2.*2).
  assert (index_getAll "restaurant_id" id (reviewsObject (database w))
          = inr l) as Hl.
  { by destruct Hid as [-> | ->]. }
  assert (∀ r, r ∈ l
               ↔ ∃ pk, reviewsObject (database w) !! pk = Some r
                       ∧ is_Some (to_key (prop r "restaurant_id"))) as Hin.
  { intros r. subst l. unfold index_entries.
    rewrite merge_sort_Permutation. split.
    - intros [[pk r'] [-> Hin]]%list_elem_of_fmap.
      apply list_elem_of_fmap in Hin as [[ik e] [-> Hin]].
      apply list_elem_of_omap in Hin as [[pk' r''] [Hin Hsome]].
      simpl in *. destruct (to_key (prop r'' "restaurant_id")) eqn:Hik;
        [|done].
      simplify_eq. simpl. exists pk'. split; [|by eexists].
      by apply elem_of_map_to_list.
    - intros (pk & Hr & [ik Hik]).
      apply list_elem_of_fmap. exists (pk, r). split; [done|].
      apply list_elem_of_fmap. exists (ik, (pk, r)). split; [done|].
      apply list_elem_of_omap. exists (pk, r).
      split; [by apply elem_of_map_to_list|]. simpl. by rewrite Hik. }
  assert (l ≠ []) as Hne.
  { intros Hnil. assert (r0 ∈ l) as Hin0 by (apply Hin; eauto).
    rewrite Hnil in Hin0. by apply elem_of_nil in Hin0. }
  exists l. unfold answers. simpl.
  by rewrite (fetchReviews_hit id l).
Qed.

Lemma reviews_of_no_restaurant_witness :
  let w := set_store IDB_REVIEWS_OBJECT
             {[KeyNumber 1 := steve;
               KeyNumber 9 := review (JSNumber 9) (JSNumber 2) "Ann" "Good."]}
             (browser true unreachable) in
  ∃ l, answers (FetchReviews JSNull) w (None, Some (DataRecords l))
       ∧ steve ∈ l
       ∧ review (JSNumber 9) (JSNumber 2) "Ann" "Good." ∈ l.
Proof.
  intros w.
  destruct (reviews_of_no_restaurant w JSNull eq_refl (or_intror eq_refl))
    as (l & Hanswer & Hl & _).
  - exists (KeyNumber 1), steve. split; [reflexivity | by eexists].
  - exists l. split; [exact Hanswer|]. split; apply Hl.
    + exists (KeyNumber 1). split; [reflexivity | by eexists].
    + exists (KeyNumber 9). split; [reflexivity | by eexists].
Defined.

(** ** The request of [addReview] *)

(** X25.  [addReview] sends its request exactly when the global object
    binds [port]: then it sends one POST and completes, whatever the server
    does; otherwise it throws a ReferenceError and leaves the world as it
    was. *)
Theorem addReview_sends_iff_port_is_bound (w : World) (data : JSObject) :
  match globals w !! "port" with
  | Some port =>
      ∃ w', DBHelper.addReview data record1 w = (Normal tt, w')
            ∧ requests w' = requests w ++ [review_request port data]
  | None => DBHelper.addReview data record1 w = (Throw port_is_not_defined, w)
  end.
Proof.
  destruct (globals w !! "port") as [port|] eqn:Hport;
    [|by apply addReview_port_unbound].
  unfold DBHelper.addReview.
  erewrite then_normal; [|by rewrite identifier_port, Hport].
  fold (review_url port).
  destruct (remote_post (remote w) (review_url port) data)
    as [e|ok [e|created]] eqn:Hpost.
  - erewrite catch_throw;
      [|apply then_throw; unfold fetch_post; by rewrite Hpost].
    unfold then_, getTime, detached. simpl.
    eexists. split; [reflexivity|].
    rewrite save_offline. simpl.
    destruct (serviceWorker w); by destruct w as [? ? ? ? ? [] ? ?].
  - unfold catch_.
    erewrite then_normal; [|unfold fetch_post; by rewrite Hpost].
    eexists. split; reflexivity.
  - unfold catch_.
    erewrite then_normal; [|unfold fetch_post; by rewrite Hpost].
    unfold with_pending, record1, then_, json, detached. simpl.
    eexists. split; [reflexivity|].
    rewrite save_review. simpl.
    destruct (serviceWorker w); by destruct w as [? ? ? ? ? [] ? ?].
Qed.
